(** * pod-analyzer: restart detection and notification pipeline

    A shallow embedding of [main.go] and the properties of its polling
    loop, evidence selection, inference decoding and message formatting.

    Go strings are byte sequences; they are modelled by [string], whose
    characters are the 8-bit [ascii] values.  [len] is the byte count. *)

From Stdlib Require Import Ascii.
From stdpp Require Import gmap strings list.

Local Open Scope Z_scope.

(** ** The parts of package [time] the program uses *)

Module GoTime.

(** An instant on the time line, in nanoseconds since the Unix epoch.
    The timestamps come from the cluster API and carry no monotonic
    clock reading, so [After] compares instants. *)
Definition Time := Z.

(** [time.Duration]: a count of nanoseconds. *)
Definition Duration := Z.

Definition Second : Duration := 1000000000.
Definition Minute : Duration := 60 * Second.

(** [t.After(u)]: [t] is strictly later than [u]. *)
Definition After (t u : Time) : bool := u <? t.

(** [t.Add(d)].  The library saturates at the ends of its range of
    seconds; instants that far from the epoch are left out. *)
Definition Add (t : Time) (d : Duration) : Time := t + d.

End GoTime.

(** ** The parts of package [strings] the program uses *)

Module GoStrings.

Definition len (s : string) : Z := Z.of_nat (String.length s).

(** [strings.HasPrefix(s, prefix)] *)
Definition HasPrefix (s prefix : string) : bool := String.prefix prefix s.

Fixpoint rev_onto (s acc : string) : string :=
  match s with
  | EmptyString => acc
  | String c s' => rev_onto s' (String c acc)
  end.

Definition rev (s : string) : string := rev_onto s "".

(** The six ASCII white-space bytes: tab, line feed, vertical tab,
    form feed, carriage return and space. *)
Definition asciiSpace (c : ascii) : bool :=
  match c with
  | "009" | "010" | "011" | "012" | "013" | " " => true
  | _ => false
  end%char.

Definition byte_is (c : ascii) (n : N) : bool := (Ascii.N_of_ascii c =? n)%N.

(** The UTF-8 encodings of the white-space runes above U+007F
    ([unicode.IsSpace]): U+0085 and U+00A0 take two bytes; U+1680,
    U+2000..U+200A, U+2028, U+2029, U+202F, U+205F and U+3000 three. *)
Definition isSpace2 (b0 b1 : ascii) : bool :=
  byte_is b0 194 && (byte_is b1 133 || byte_is b1 160).

Definition isSpace3 (b0 b1 b2 : ascii) : bool :=
  (byte_is b0 225 && byte_is b1 154 && byte_is b2 128)
  || (byte_is b0 226 && byte_is b1 128
      && ((128 <=? Ascii.N_of_ascii b2)%N && (Ascii.N_of_ascii b2 <=? 138)%N
          || byte_is b2 168 || byte_is b2 169 || byte_is b2 175))
  || (byte_is b0 226 && byte_is b1 129 && byte_is b2 159)
  || (byte_is b0 227 && byte_is b1 128 && byte_is b2 128).

(** Drops white-space runes from the front of [s]. *)
Fixpoint TrimLeftSpace (s : string) : string :=
  match s with
  | EmptyString => EmptyString
  | String b0 s1 =>
      if asciiSpace b0 then TrimLeftSpace s1
      else match s1 with
           | String b1 s2 =>
               if isSpace2 b0 b1 then TrimLeftSpace s2
               else match s2 with
                    | String b2 s3 =>
                        if isSpace3 b0 b1 b2 then TrimLeftSpace s3 else s
                    | EmptyString => s
                    end
           | EmptyString => s
           end
  end.

(** The same scan over the reversed string: [r] lists the bytes of
    the original from its last one, and what is returned is the
    reversed remainder. *)
Fixpoint trimRevSpace (r : string) : string :=
  match r with
  | EmptyString => EmptyString
  | String b0 r1 =>
      if asciiSpace b0 then trimRevSpace r1
      else match r1 with
           | String b1 r2 =>
               if isSpace2 b1 b0 then trimRevSpace r2
               else match r2 with
                    | String b2 r3 =>
                        if isSpace3 b2 b1 b0 then trimRevSpace r3 else r
                    | EmptyString => r
                    end
           | EmptyString => r
           end
  end.

Definition TrimRightSpace (s : string) : string := rev (trimRevSpace (rev s)).

(** [strings.TrimSpace(s)]: leading white space is removed first, then
    trailing white space of what is left. *)
Definition TrimSpace (s : string) : string := TrimRightSpace (TrimLeftSpace s).

(** [strings.Split(s, sep)] for a separator of one byte.  The result
    is never empty: a string without separator yields itself alone. *)
Fixpoint Split (s : string) (sep : ascii) : list string :=
  match s with
  | EmptyString => [EmptyString]
  | String c s' =>
      if Ascii.eqb c sep then EmptyString :: Split s' sep
      else match Split s' sep with
           | piece :: pieces => String c piece :: pieces
           | [] => [String c EmptyString]
           end
  end.

(** [strings.Join(elems, sep)] *)
Fixpoint Join (elems : list string) (sep : string) : string :=
  match elems with
  | [] => ""
  | [e] => e
  | e :: rest => e +:+ sep +:+ Join rest sep
  end.

(** [s[:n]].  Go panics when [n] is negative or exceeds [len(s)];
    [None] stands for the panic. *)
Definition slice_to (s : string) (n : Z) : option string :=
  if (n <? 0) || (len s <? n) then None
  else Some (String.substring 0 (Z.to_nat n) s).

End GoStrings.

(** ** The values [encoding/json] decodes into

    A Go [interface{}] after decoding holds nil, a bool, a float64, a
    string, a slice or a map.  The program reads only strings and
    bools out of it; a number is kept as some text that stands for its
    float64.  The decoder itself is library code and is not modelled:
    what it returns for a body is given with the world of a task. *)

Module Json.

#[local] Unset Elimination Schemes.
Inductive JSON :=
| Null
| Bool (b : bool)
| Number (literal : string)
| Str (s : string)
| Array (elems : list JSON)
| Object (members : list (string * JSON)).
#[local] Set Elimination Schemes.

Definition error := string.

End Json.

Import GoTime GoStrings Json.

(** ** Constants of the program *)

Definition OLLAMA_API : string := "http://192.168.0.113:11434/api/generate".
Definition OLLAMA_MODEL : string := "llama3".
Definition SLACK_CHANNEL : string := "#all-vishal-personal".
Definition CHECK_INTERVAL : Duration := 30 * Second.
Definition LOG_LINES : Z := 50.

Definition newline : ascii := "010"%char.
Definition nl : string := String newline "".

(** ** Notification formatter *)

(** [truncate(s, limit)].  The slice [s[:limit]] is taken only when
    [len(s) > limit]; it panics for a negative [limit]. *)
Definition truncate (s : string) (limit : Z) : option string :=
  if len s <=? limit then Some s
  else rest ← slice_to s limit; Some (rest +:+ "... (truncated)").

(** A line the formatter takes for a shell command. *)
Definition isCommand (trimmed : string) : bool :=
  HasPrefix trimmed "kubectl " || HasPrefix trimmed "bash ".

(** One iteration of the loop of [formatCodeBlocks] over the state
    [(formatted, inCodeBlock)]. *)
Definition formatStep (st : list string * bool) (line : string)
  : list string * bool :=
  let '(formatted, inCodeBlock) := st in
  let trimmed := TrimSpace line in
  if isCommand trimmed then
    let '(formatted, inCodeBlock) :=
      if negb inCodeBlock then (formatted ++ ["```bash"], true)
      else (formatted, inCodeBlock) in
    (formatted ++ [trimmed], inCodeBlock)
  else
    let '(formatted, inCodeBlock) :=
      if inCodeBlock then (formatted ++ ["```"], false)
      else (formatted, inCodeBlock) in
    (formatted ++ [trimmed], inCodeBlock).

(** The loop and the closing of a fence left open, on the lines. *)
Definition formatLines (lines : list string) : list string :=
  let '(formatted, inCodeBlock) := fold_left formatStep lines ([], false) in
  if inCodeBlock then formatted ++ ["```"] else formatted.

Definition formatCodeBlocks (text : string) : string :=
  Join (formatLines (Split text newline)) nl.

(** ** Data of the cluster API, as far as the program reads it *)

Definition error := Json.error.

Record ContainerStatus := { RestartCount : Z }.

(** [StartTime] is a pointer in Go; [None] is nil. *)
Record Pod := {
  Namespace : string;
  Name : string;
  ContainerStatuses : list ContainerStatus;
  StartTime : option Time
}.

Record Event := {
  InvolvedObjectName : string;
  LastTimestamp : Time;
  Reason : string;
  Message : string
}.

(** The request bodies sent to the inference service and to Slack. *)
Record OllamaRequest := { model : string; prompt : string; stream : bool }.

Record SlackPayload := {
  channel : string;
  text : string;
  thread_ts : option string
}.

(** What the program does to the outside, in program order. *)
Inductive Effect :=
| ListPods
| Log (msg : string)
| Store (key : string) (t : Time)
| Go (podName namespace : string) (restartTime : Time)
| Sleep (d : Duration)
| GetLogs (namespace podName : string) (tailLines : Z)
| ListEvents (namespace : string)
| Generate (req : OllamaRequest)
| Post (payload : SlackPayload).

(** ** Restart detector: the loop of [main] *)

(** [fmt.Sprintf("%s/%s", pod.Namespace, pod.Name)] *)
Definition dedupKey (namespace name : string) : string :=
  namespace +:+ "/" +:+ name.

(** The body of the inner loop, lines 60 to 69, on the map
    [notifiedRestarts].  The map is written before the task is
    started; the trace lists the three statements in their order. *)
Definition checkContainer (pod : Pod) (cs : ContainerStatus)
    (notifiedRestarts : gmap string Time) : list Effect * gmap string Time :=
  match StartTime pod with
  | Some startTime =>
      if 0 <? RestartCount cs then
        let key := dedupKey (Namespace pod) (Name pod) in
        let restartTime := startTime in
        let fresh :=
          match notifiedRestarts !! key with
          | Some last => After restartTime last
          | None => true
          end in
        if fresh then
          ([Store key restartTime;
            Log ("🚨 Detected restart: " +:+ Name pod +:+ " [" +:+ Namespace pod +:+ "]");
            Go (Name pod) (Namespace pod) restartTime],
           <[key := restartTime]> notifiedRestarts)
        else ([], notifiedRestarts)
      else ([], notifiedRestarts)
  | None => ([], notifiedRestarts)
  end.

(** A [for ... range] loop whose body reads and writes the map. *)
Fixpoint forEach {A : Type}
    (body : A → gmap string Time → list Effect * gmap string Time)
    (items : list A) (m : gmap string Time) : list Effect * gmap string Time :=
  match items with
  | [] => ([], m)
  | x :: rest =>
      let '(tr1, m1) := body x m in
      let '(tr2, m2) := forEach body rest m1 in
      (tr1 ++ tr2, m2)
  end.

Definition checkPod (pod : Pod) : gmap string Time → list Effect * gmap string Time :=
  forEach (checkContainer pod) (ContainerStatuses pod).

(** One turn of the [for] loop, given what the listing call returned.
    On an error the [continue] goes straight to the next turn; the
    [time.Sleep] at the end of the body is reached only after a
    listing that succeeded. *)
Definition pollOnce (listed : error + list Pod) (m : gmap string Time)
  : list Effect * gmap string Time :=
  match listed with
  | inl err => ([ListPods; Log ("❌ Error fetching pods: " +:+ err)], m)
  | inr pods =>
      let '(tr, m') := forEach checkPod pods m in
      (ListPods :: tr ++ [Sleep CHECK_INTERVAL], m')
  end.

(** The first turns of the endless loop: one per listing result. *)
Definition mainLoop : list (error + list Pod) → gmap string Time
  → list Effect * gmap string Time := forEach pollOnce.

(** The run of the process from its start, where the map is empty. *)
Definition run (polls : list (error + list Pod)) : list Effect * gmap string Time :=
  mainLoop polls ∅.

(** ** The analysis task *)

(** A task emits effects and may panic; [None] is the panic. *)
Definition Task (A : Type) : Type := option A * list Effect.

#[local] Instance task_ret : MRet Task := λ A x, (Some x, []).

#[local] Instance task_bind : MBind Task := λ A B f m,
  match m with
  | (Some x, tr) => let '(r, tr') := f x in (r, tr ++ tr')
  | (None, tr) => (None, tr)
  end.

Definition perform (e : Effect) : Task unit := (Some tt, [e]).

Definition orPanic {A : Type} (r : option A) : Task A := (r, []).

(** What an HTTP round trip gave: an error of [Do], an error while
    reading the body (with the bytes read so far), or the body. *)
Inductive HttpResult :=
| TransportError (err : error)
| ReadError (err : error) (partial : string)
| Body (body : string).

(** The collaborators of one task.  [formatTime] is
    [restartTime.Format("2006-01-02 15:04:05")], which renders in the
    time zone of the process.  [unmarshal data] is
    [var m map[string]interface{}; err := json.Unmarshal(data, &m)]:
    the error returned, [None] for nil, and the map left in [m], which
    is empty where Go leaves it nil and may hold entries even when an
    error is returned. *)
Record World := {
  getLogs : string → string → Z → error + string;
  listEvents : string → error + list Event;
  ollama : OllamaRequest → HttpResult;
  slack : SlackPayload → HttpResult;
  formatTime : Time → string;
  unmarshal : string → option error * gmap string JSON
}.

(** The loop of lines 91 to 96. *)
Definition correlatedEvents (podName : string) (restartTime : Time)
    (items : list Event) : list Event :=
  fold_left
    (fun events e =>
       if String.eqb (InvolvedObjectName e) podName
          && After (LastTimestamp e) (Add restartTime (-1 * Minute))
       then events ++ [e] else events)
    items [].

Definition ollamaRequest (logs : string) (events : list Event) : OllamaRequest :=
  let eventLines := map (fun e => "- " +:+ Reason e +:+ ": " +:+ Message e) events in
  let eventStr := Join eventLines nl in
  {| model := OLLAMA_MODEL;
     prompt := "Here are the logs and events from a Kubernetes pod. Help me identify the issue and suggest a fix."
               +:+ nl +:+ nl +:+ "Events:" +:+ nl +:+ eventStr
               +:+ nl +:+ nl +:+ "Logs:" +:+ nl +:+ logs;
     stream := false |}.

(** [callOllama].  The method and URL of the request are constants, so
    [http.NewRequest] does not fail. *)
Definition callOllama (w : World) (logs : string) (events : list Event)
  : Task (string * option error) :=
  let req := ollamaRequest logs events in
  perform (Generate req);;
  match ollama w req with
  | TransportError err => mret ("", Some err)
  | ReadError err _ => mret ("", Some err)
  | Body respBody =>
      match unmarshal w respBody with
      | (Some err, _) => mret ("", Some err)
      | (None, parsed) =>
          match parsed !! "response" with
          | Some (Str response) => mret (response, None)
          | _ => mret ("No response from model", None)
          end
      end
  end.

(** [postToSlack].  Errors of reading and of decoding the answer are
    dropped: the map is read as the decoder left it. *)
Definition postToSlack (w : World) (payload : SlackPayload) : Task string :=
  perform (Post payload);;
  match slack w payload with
  | TransportError err => perform (Log ("❌ Slack API error: " +:+ err));; mret ""
  | ReadError _ body | Body body =>
      let result := (unmarshal w body).2 in
      let ok := match result !! "ok" with Some (Bool b) => b | _ => false end in
      if negb ok then perform (Log ("❌ Slack API response: " +:+ body));; mret ""
      else match result !! "ts" with
           | Some (Str ts) => mret ts
           | _ => mret ""
           end
  end.

Definition summaryPayload (w : World) (podName namespace : string)
    (restartTime : Time) : SlackPayload :=
  let summary :=
    "*🚨 Pod Restart Detected!*" +:+ nl
    +:+ ("> *Pod:* `" +:+ podName +:+ "`" +:+ nl)
    +:+ ("> *Namespace:* `" +:+ namespace +:+ "`" +:+ nl)
    +:+ ("> *Restart Time:* `" +:+ formatTime w restartTime +:+ "`") in
  {| channel := SLACK_CHANNEL; text := summary; thread_ts := None |}.

Definition sendMainSlackMessage (w : World) (podName namespace : string)
    (restartTime : Time) : Task string :=
  postToSlack w (summaryPayload w podName namespace restartTime).

Definition threadPayload (threadTs message : string) : SlackPayload :=
  {| channel := SLACK_CHANNEL; text := message; thread_ts := Some threadTs |}.

Definition sendSlackThread (w : World) (threadTs message : string) : Task unit :=
  postToSlack w (threadPayload threadTs message);; mret tt.

Definition formatEvents (events : list Event) : string :=
  Join (map (fun e => Reason e +:+ ": " +:+ Message e) events) nl.

Definition fence : string := "```".

Definition analyzePod (w : World) (podName namespace : string)
    (restartTime : Time) : Task unit :=
  perform (GetLogs namespace podName LOG_LINES);;
  match getLogs w namespace podName LOG_LINES with
  | inl err =>
      perform (Log ("❌ Failed to get logs for " +:+ podName +:+ ": " +:+ err))
  | inr logs =>
      perform (ListEvents namespace);;
      match listEvents w namespace with
      | inl err =>
          perform (Log ("❌ Failed to get events for " +:+ podName +:+ ": " +:+ err))
      | inr items =>
          let events := correlatedEvents podName restartTime items in
          '(analysis, err) ← callOllama w logs events;
          match err with
          | Some err =>
              perform (Log ("❌ Failed to analyze pod " +:+ podName +:+ ": " +:+ err))
          | None =>
              threadTS ← sendMainSlackMessage w podName namespace restartTime;
              if negb (String.eqb threadTS "") then
                sendSlackThread w threadTS
                  ("📋 *Events:*" +:+ nl +:+ fence +:+ formatEvents events +:+ fence);;
                shortLogs ← orPanic (truncate logs 1000);
                sendSlackThread w threadTS
                  ("📦 *Logs:*" +:+ nl +:+ fence +:+ shortLogs +:+ fence);;
                shortAnalysis ← orPanic (truncate analysis 3000);
                sendSlackThread w threadTS
                  ("🤖 *Analysis:*" +:+ nl +:+ formatCodeBlocks shortAnalysis)
              else mret tt
          end
      end
  end.

(** ** Readings of the code used to state its properties *)

(** The loop of [formatCodeBlocks] read as a recursion over the lines
    that remain, [inCodeBlock] telling whether a fence is open. *)
Fixpoint fenced (inCodeBlock : bool) (lines : list string) : list string :=
  match lines with
  | [] => if inCodeBlock then [fence] else []
  | line :: rest =>
      let trimmed := TrimSpace line in
      if isCommand trimmed
      then (if inCodeBlock then [] else ["```bash"]) ++ trimmed :: fenced true rest
      else (if inCodeBlock then [fence] else []) ++ trimmed :: fenced false rest
  end.

(** A line the loop takes for a command, and one it does not. *)
Definition command (line : string) : Prop := isCommand (TrimSpace line) = true.
Definition plain (line : string) : Prop := isCommand (TrimSpace line) = false.

(** The trimmed lines in their order, each after the fence lines
    [marks] puts in front of it. *)
Definition weave (marks : list (list string)) (lines : list string) : list string :=
  concat (zip_with (fun mark line => mark ++ [TrimSpace line]) marks lines).

(** What the truncator is said to do for a string and a limit. *)
Definition truncate_claim (s : string) (n : Z) : Prop :=
  (len s <= n → truncate s n = Some s)
  ∧ (n < len s →
     ∃ head tail,
       s = head +:+ tail ∧ len head = n
       ∧ truncate s n = Some (head +:+ "... (truncated)")
       ∧ len (head +:+ "... (truncated)") = n + len "... (truncated)").

(** An event is correlated with a restart of [podName] at
    [restartTime]: same object name, last seen later than one minute
    before the restart. *)
Definition correlated (podName : string) (restartTime : Time) (e : Event) : Prop :=
  InvolvedObjectName e = podName ∧ restartTime - Minute < LastTimestamp e.

#[local] Instance correlated_dec podName restartTime e :
  Decision (correlated podName restartTime e).
Proof. unfold correlated. apply _. Defined.

(** The map after the statements of a trace, from the map before
    them: only [Store] writes it. *)
Fixpoint replay (tr : list Effect) (m : gmap string Time) : gmap string Time :=
  match tr with
  | [] => m
  | Store key t :: tr' => replay tr' (<[key := t]> m)
  | _ :: tr' => replay tr' m
  end.

(** What a stretch of the loop that takes the map from [m] to [m']
    and leaves the trace [tr] keeps true. *)
Record Segment (m : gmap string Time) (tr : list Effect) (m' : gmap string Time)
  : Prop := {
  seg_sync : m' = replay tr m;
  seg_mono : ∀ key u, m !! key = Some u → ∃ u', m' !! key = Some u' ∧ u <= u';
  seg_lower : ∀ i name ns t u,
    tr !! i = Some (Go name ns t) → m !! dedupKey ns name = Some u → u < t;
  seg_upper : ∀ i name ns t,
    tr !! i = Some (Go name ns t) →
    ∃ u', m' !! dedupKey ns name = Some u' ∧ t <= u';
  seg_order : ∀ i j name ns t t',
    (i < j)%nat → tr !! i = Some (Go name ns t) → tr !! j = Some (Go name ns t') →
    t < t';
  seg_stored : ∀ i name ns t,
    tr !! i = Some (Go name ns t) →
    replay (take i tr) m !! dedupKey ns name = Some t
}.

(** An effect that neither writes the map nor starts a task. *)
Definition silent (e : Effect) : Prop :=
  match e with
  | Store _ _ | Go _ _ _ => False
  | _ => True
  end.

(** Every listing but the first comes after a sleep of at least the
    check interval since the listing before it. *)
Fixpoint paced_from (slept : bool) (tr : list Effect) : bool :=
  match tr with
  | [] => true
  | ListPods :: tr' => slept && paced_from false tr'
  | Sleep d :: tr' => paced_from (slept || (CHECK_INTERVAL <=? d)) tr'
  | _ :: tr' => paced_from slept tr'
  end.

Definition paced (tr : list Effect) : bool := paced_from true tr.

(** Inputs on which the properties are tried. *)
Definition app1 (t : Time) (restarts : Z) : Pod :=
  {| Namespace := "ns"; Name := "app-1";
     ContainerStatuses := [{| RestartCount := restarts |}; {| RestartCount := restarts |}];
     StartTime := Some t |}.

Definition three_polls : list (error + list Pod) :=
  [inr [app1 100 1]; inr [app1 100 1]; inr [app1 200 2]].

(** An effect of the detection itself: a store, a log line or a task
    started. *)
Definition detection (e : Effect) : Prop :=
  match e with
  | Store _ _ | Log _ | Go _ _ _ => True
  | _ => False
  end.

(** The messages a task sent to Slack, in their order. *)
Definition posts (tr : list Effect) : list SlackPayload :=
  omap (fun e => match e with Post payload => Some payload | _ => None end) tr.

(** A string between double quotes, for writing JSON text. *)
Definition quoted (s : string) : string := String "034" (s +:+ String "034" "").

Definition answer_with_text : string :=
  "{" +:+ quoted "response" +:+ ":" +:+ quoted "Check the image tag." +:+ "}".
Definition answer_without_text : string := "{" +:+ quoted "done" +:+ ":true}".
Definition answer_garbled : string := "<html>502 Bad Gateway</html>".
Definition slack_accepted : string :=
  "{" +:+ quoted "ok" +:+ ":true," +:+ quoted "ts" +:+ ":"
  +:+ quoted "1700000000.000100" +:+ "}".
Definition slack_refused : string :=
  "{" +:+ quoted "ok" +:+ ":false," +:+ quoted "error" +:+ ":"
  +:+ quoted "channel_not_found" +:+ "}".

Definition oomKilled : Event :=
  {| InvolvedObjectName := "app-1"; LastTimestamp := 90;
     Reason := "Failed"; Message := "OOMKilled" |}.

(** An answer of Slack that says ok and names no message. *)
Definition slack_acknowledged : string := "{" +:+ quoted "ok" +:+ ":true}".

(** What [json.Unmarshal] returns for the bodies above.  The worlds
    below hand the decoder no other body; for one it reports the error
    of an empty input. *)
Definition decoded (body : string) : option error * gmap string JSON :=
  if String.eqb body answer_with_text then
    (None, {[ "response" := Str "Check the image tag." ]})
  else if String.eqb body answer_without_text then
    (None, {[ "done" := Bool true ]})
  else if String.eqb body slack_accepted then
    (None, <[ "ok" := Bool true ]> {[ "ts" := Str "1700000000.000100" ]})
  else if String.eqb body slack_refused then
    (None, <[ "ok" := Bool false ]> {[ "error" := Str "channel_not_found" ]})
  else if String.eqb body slack_acknowledged then
    (None, {[ "ok" := Bool true ]})
  else if String.eqb body answer_garbled then
    (Some "invalid character '<' looking for beginning of value", ∅)
  else (Some "unexpected end of JSON input", ∅).

(** A world whose inference service answers [inference] and whose
    Slack answers [parent] to a message outside a thread. *)
Definition world (inference parent : HttpResult) : World :=
  {| getLogs := fun _ _ _ => inr "fatal error: out of memory";
     listEvents := fun _ => inr [oomKilled];
     ollama := fun _ => inference;
     slack := fun payload =>
       match thread_ts payload with
       | None => parent
       | Some _ => Body slack_accepted
       end;
     formatTime := fun _ => "2024-05-01 12:00:00";
     unmarshal := decoded |}.

(** ** Further readings, for the properties beyond the claims *)

(** The byte [c] occurs in [s]. *)
Fixpoint has_byte (c : ascii) (s : string) : bool :=
  match s with
  | EmptyString => false
  | String b s' => Ascii.eqb b c || has_byte c s'
  end.

(** A pod some container of which has restarted. *)
Definition restarted (pod : Pod) : Prop :=
  Exists (fun cs => 0 < RestartCount cs) (ContainerStatuses pod).

(** The three statements the loop runs when it takes up a restart of
    [pod] at [t]. *)
Definition dispatch (pod : Pod) (t : Time) : list Effect :=
  [Store (dedupKey (Namespace pod) (Name pod)) t;
   Log ("🚨 Detected restart: " +:+ Name pod +:+ " [" +:+ Namespace pod +:+ "]");
   Go (Name pod) (Namespace pod) t].

(** A line written to the log. *)
Definition logged (e : Effect) : Prop :=
  match e with
  | Log _ => True
  | _ => False
  end.

(** An effect an analysis task may have: a call to the cluster, to the
    inference service or to Slack, or a log line. *)
Definition taskEffect (e : Effect) : Prop :=
  match e with
  | GetLogs _ _ _ | ListEvents _ | Generate _ | Post _ | Log _ => True
  | _ => False
  end.

(** Every start time in the map after was in the map before or was
    dispatched on the way. *)
Definition accounted (m : gmap string Time) (tr : list Effect)
    (m' : gmap string Time) : Prop :=
  ∀ key (t : Time), m' !! key = Some t →
    m !! key = Some t ∨ ∃ name ns, key = dedupKey ns name ∧ Go name ns t ∈ tr.

(** A failed listing is the last turn of the list, if there is one. *)
Definition only_last_fails (polls : list (error + list Pod)) : Prop :=
  ∀ (i : nat) err, polls !! i = Some (inl err) → S i = length polls.

(** The texts of the three replies and of the log lines of a task. *)
Definition eventsBlock (events : list Event) : string :=
  "📋 *Events:*" +:+ nl +:+ fence +:+ formatEvents events +:+ fence.

Definition logsBlock (shortLogs : string) : string :=
  "📦 *Logs:*" +:+ nl +:+ fence +:+ shortLogs +:+ fence.

Definition analysisBlock (shortAnalysis : string) : string :=
  "🤖 *Analysis:*" +:+ nl +:+ formatCodeBlocks shortAnalysis.

(** The map the decoder leaves for Slack's answer to a post, whether
    or not it reports an error; none when the post got no answer. *)
Definition slackAnswer (w : World) (r : HttpResult) : option (gmap string JSON) :=
  match r with
  | TransportError _ => None
  | ReadError _ body | Body body => Some (unmarshal w body).2
  end.

(** How often a trace lists the pods, and how often it sleeps. *)
Fixpoint listings (tr : list Effect) : nat :=
  match tr with
  | [] => 0
  | ListPods :: tr' => S (listings tr')
  | _ :: tr' => listings tr'
  end.

Fixpoint sleeps (tr : list Effect) : nat :=
  match tr with
  | [] => 0
  | Sleep _ :: tr' => S (sleeps tr')
  | _ :: tr' => sleeps tr'
  end.

(** The listings of a run that succeeded. *)
Definition succeeded (polls : list (error + list Pod)) : list (list Pod) :=
  omap (fun listed => match listed with inr pods => Some pods | inl _ => None end) polls.

(** [r] is [s] cut to [n] characters: [s] itself when it has no more
    than [n], else its first [n] followed by the suffix. *)
Definition truncated_to (n : Z) (s r : string) : Prop :=
  (len s <= n ∧ r = s)
  ∨ (n < len s
     ∧ ∃ head tail, s = head +:+ tail ∧ len head = n
                    ∧ r = head +:+ "... (truncated)").

(** ** White space, for the properties of trimming *)

(** The UTF-8 encodings of the white-space characters of Unicode:
    U+0009 to U+000D and U+0020 in one byte; U+0085 and U+00A0 in two;
    U+1680, U+2000 to U+200A, U+2028, U+2029, U+202F, U+205F and U+3000
    in three. *)
Definition spaceRunes : list string :=
  [String "009" "";
   String "010" "";
   String "011" "";
   String "012" "";
   String "013" "";
   String "032" "";
   String "194" (String "133" "");
   String "194" (String "160" "");
   String "225" (String "154" (String "128" ""));
   String "226" (String "128" (String "128" ""));
   String "226" (String "128" (String "129" ""));
   String "226" (String "128" (String "130" ""));
   String "226" (String "128" (String "131" ""));
   String "226" (String "128" (String "132" ""));
   String "226" (String "128" (String "133" ""));
   String "226" (String "128" (String "134" ""));
   String "226" (String "128" (String "135" ""));
   String "226" (String "128" (String "136" ""));
   String "226" (String "128" (String "137" ""));
   String "226" (String "128" (String "138" ""));
   String "226" (String "128" (String "168" ""));
   String "226" (String "128" (String "169" ""));
   String "226" (String "128" (String "175" ""));
   String "226" (String "129" (String "159" ""));
   String "227" (String "128" (String "128" ""))].

(** A string made of white space only. *)
Inductive blank : string → Prop :=
| blank_empty : blank ""
| blank_rune rune rest : rune ∈ spaceRunes → blank rest → blank (rune +:+ rest).

(** A string that neither begins nor ends with white space. *)
Definition unpadded (t : string) : Prop :=
  ∀ rune rest, rune ∈ spaceRunes → t ≠ rune +:+ rest ∧ t ≠ rest +:+ rune.

(** [t] is [line] without the white space at its two ends. *)
Definition trimmed_of (line t : string) : Prop :=
  ∃ pre post, blank pre ∧ blank post ∧ line = pre +:+ t +:+ post ∧ unpadded t.

(** The lines [lines] in their order, each after the fence lines
    [marks] puts in front of it. *)
Definition interleave (marks : list (list string)) (lines : list string)
  : list string :=
  concat (zip_with (fun mark line => mark ++ [line]) marks lines).

(** * Properties *)

(** ** Strings *)

Section StringFacts.

Lemma app_String c (s t : string) : String c s +:+ t = String c (s +:+ t).
Proof. reflexivity. Qed.

Lemma app_empty_l (s : string) : "" +:+ s = s.
Proof. reflexivity. Qed.

Lemma length_app (s t : string) :
  String.length (s +:+ t) = (String.length s + String.length t)%nat.
Proof.
  induction s as [|c s IH]; [reflexivity|].
  rewrite app_String. simpl. by rewrite IH.
Qed.

Lemma len_app (s t : string) : len (s +:+ t) = len s + len t.
Proof. unfold len. rewrite length_app. lia. Qed.

(** The first [n] bytes of a string that has at least [n]. *)
Lemma substring_head (s : string) (n : nat) :
  (n ≤ String.length s)%nat →
  ∃ tail, s = String.substring 0 n s +:+ tail
          ∧ String.length (String.substring 0 n s) = n.
Proof.
  revert n. induction s as [|c s IH]; intros [|n] Hn; simpl in *.
  - by exists "".
  - lia.
  - by exists (String c s).
  - destruct (IH n) as (tail & Hs & Hl); [lia|].
    exists tail. rewrite app_String, <- Hs, Hl. done.
Qed.

End StringFacts.

(** ** Truncator *)

Lemma truncate_within (s : string) (n : Z) : len s <= n → truncate s n = Some s.
Proof. intros H. unfold truncate. by rewrite (proj2 (Z.leb_le _ _) H). Qed.

Lemma truncate_beyond (s : string) (n : Z) :
  0 <= n → n < len s →
  truncate s n = Some (String.substring 0 (Z.to_nat n) s +:+ "... (truncated)").
Proof.
  intros H0 Hn. unfold truncate, slice_to.
  rewrite (proj2 (Z.leb_gt _ _) Hn).
  rewrite (proj2 (Z.ltb_ge _ _) H0).
  assert ((len s <? n) = false) as -> by (apply Z.ltb_ge; lia).
  reflexivity.
Qed.

(** C5: for every string and every limit, a count of characters and
    so not negative, [truncate] returns the string itself when it is
    within the limit, and otherwise its first [limit] characters,
    wherever that cut falls, followed by the suffix "... (truncated)";
    the result is then [limit] plus the length of the suffix long. *)
Theorem truncate_spec (s : string) (n : Z) : 0 <= n → truncate_claim s n.
Proof.
  intros H0. split; [apply truncate_within|].
  intros Hn.
  destruct (substring_head s (Z.to_nat n)) as (tail & Hs & Hl).
  { unfold len in Hn. lia. }
  exists (String.substring 0 (Z.to_nat n) s), tail.
  assert (len (String.substring 0 (Z.to_nat n) s) = n) as Hlen.
  { unfold len. rewrite Hl. lia. }
  split; [exact Hs|]. split; [exact Hlen|].
  split; [by apply truncate_beyond|].
  rewrite len_app, Hlen. done.
Qed.

Lemma truncate_spec_witness : 0 <= 3 ∧ truncate_claim "abcdefgh" 3.
Proof. split; [lia | apply (truncate_spec "abcdefgh" 3); lia]. Defined.

(** Below zero the slice expression panics; the program passes 1000
    and 3000. *)
Example truncate_negative_limit : truncate "abc" (-1) = None.
Proof. reflexivity. Qed.

(** The limits the program passes never make [truncate] panic. *)
Lemma truncate_total (s : string) (n : Z) : 0 <= n → is_Some (truncate s n).
Proof.
  intros H0. destruct (Z.le_gt_cases (len s) n).
  - rewrite truncate_within; eauto.
  - rewrite truncate_beyond; eauto.
Qed.

(** ** Evidence collector *)

Lemma correlated_test podName restartTime e :
  String.eqb (InvolvedObjectName e) podName
  && After (LastTimestamp e) (Add restartTime (-1 * Minute)) = true
  ↔ correlated podName restartTime e.
Proof.
  unfold correlated, After, Add.
  rewrite andb_true_iff, String.eqb_eq, Z.ltb_lt. split; intros [? ?]; split; auto; lia.
Qed.

Lemma correlatedEvents_from podName restartTime items acc :
  fold_left
    (fun events e =>
       if String.eqb (InvolvedObjectName e) podName
          && After (LastTimestamp e) (Add restartTime (-1 * Minute))
       then events ++ [e] else events)
    items acc
  = acc ++ filter (correlated podName restartTime) items.
Proof.
  revert acc. induction items as [|e items IH]; intros acc; simpl.
  - by rewrite app_nil_r.
  - rewrite IH.
    destruct (String.eqb _ _ && After _ _) eqn:Htest.
    + apply correlated_test in Htest.
      rewrite filter_cons_True by done. by rewrite <- app_assoc.
    + rewrite filter_cons_False; [done|].
      intros Hc. apply correlated_test in Hc. congruence.
Qed.

(** C9: the events kept for an incident are exactly the listed events,
    in their order, whose involved-object name is the pod's name and
    whose last timestamp is later than the restart time less one
    minute; an event is kept however long after the restart it was
    last seen. *)
Theorem correlatedEvents_spec (podName : string) (restartTime : Time)
    (items : list Event) :
  correlatedEvents podName restartTime items
  = filter (correlated podName restartTime) items
  ∧ ∀ e, e ∈ correlatedEvents podName restartTime items
         ↔ e ∈ items ∧ InvolvedObjectName e = podName
           ∧ restartTime - Minute < LastTimestamp e.
Proof.
  assert (correlatedEvents podName restartTime items
          = filter (correlated podName restartTime) items) as Heq.
  { unfold correlatedEvents. by rewrite correlatedEvents_from. }
  split; [exact Heq|].
  intros e. rewrite Heq, list_elem_of_filter. unfold correlated. tauto.
Qed.

(** ** Code-block formatter *)

Section FormatCodeBlocks.

Implicit Types (line : string) (lines run rest before formatted : list string).

(** The loop with its accumulator is the recursion [fenced]. *)
Lemma fold_formatStep lines formatted (inCodeBlock : bool) :
  (let '(out, open) := fold_left formatStep lines (formatted, inCodeBlock) in
   if open then out ++ [fence] else out)
  = formatted ++ fenced inCodeBlock lines.
Proof.
  revert formatted inCodeBlock.
  induction lines as [|line lines IH]; intros formatted inCodeBlock.
  - simpl. destruct inCodeBlock; [done|]. by rewrite app_nil_r.
  - cbn [fold_left fenced]. unfold formatStep at 2.
    destruct (isCommand (TrimSpace line)), inCodeBlock; cbn [negb];
      rewrite IH, <- ?app_assoc; reflexivity.
Qed.

Lemma formatLines_fenced lines : formatLines lines = fenced false lines.
Proof. unfold formatLines. apply (fold_formatStep lines [] false). Qed.

Lemma fenced_command b line rest :
  command line →
  fenced b (line :: rest)
  = (if b then [] else ["```bash"]) ++ TrimSpace line :: fenced true rest.
Proof. unfold command. intros H. simpl. by rewrite H. Qed.

Lemma fenced_plain b line rest :
  plain line →
  fenced b (line :: rest)
  = (if b then [fence] else []) ++ TrimSpace line :: fenced false rest.
Proof. unfold plain. intros H. simpl. by rewrite H. Qed.

(** Inside a fence, a run of command lines adds no fence line. *)
Lemma fenced_run run rest :
  Forall command run →
  fenced true (run ++ rest) = map TrimSpace run ++ fenced true rest.
Proof.
  induction 1 as [|line run Hline _ IH]; [done|].
  rewrite <- app_comm_cons, fenced_command by done.
  simpl. by rewrite IH.
Qed.

(** The open fence is closed where the run stops. *)
Lemma fenced_stop rest :
  (∀ line, head rest = Some line → plain line) →
  fenced true rest = fence :: fenced false rest.
Proof.
  destruct rest as [|line rest]; [done|]. intros H.
  rewrite !fenced_plain by (apply H; done). done.
Qed.

(** After lines that end outside a fence the loop starts afresh. *)
Lemma fenced_after_plain before rest b :
  before ≠ [] →
  (∀ line, last before = Some line → plain line) →
  fenced b (before ++ rest) = fenced b before ++ fenced false rest.
Proof.
  revert b. induction before as [|line before IH]; intros b Hne Hlast; [done|].
  destruct before as [|line' before].
  - assert (plain line) as Hp by (apply Hlast; done).
    change ([line] ++ rest) with (line :: rest).
    rewrite !fenced_plain by done.
    destruct b; reflexivity.
  - assert (∀ b', fenced b' ((line' :: before) ++ rest)
                  = fenced b' (line' :: before) ++ fenced false rest) as IH'.
    { intros b'. apply IH; [done|]. intros l Hl. apply Hlast. by rewrite last_cons, Hl. }
    rewrite <- app_comm_cons.
    cbn [fenced]. cbn [fenced] in IH'.
    destruct (isCommand (TrimSpace line)); rewrite IH';
      destruct b; simpl; reflexivity.
Qed.

Lemma formatLines_after before rest :
  (∀ line, last before = Some line → plain line) →
  formatLines (before ++ rest) = formatLines before ++ formatLines rest.
Proof.
  intros Hlast. rewrite !formatLines_fenced.
  destruct before as [|line before]; [done|].
  by apply fenced_after_plain.
Qed.

Lemma formatLines_run run rest :
  run ≠ [] → Forall command run →
  (∀ line, head rest = Some line → plain line) →
  formatLines (run ++ rest)
  = ["```bash"] ++ map TrimSpace run ++ [fence] ++ formatLines rest.
Proof.
  intros Hne Hrun Hrest. rewrite !formatLines_fenced.
  destruct Hrun as [|line run Hline Hrun]; [done|].
  rewrite <- app_comm_cons, fenced_command by done.
  rewrite fenced_run, fenced_stop by done. reflexivity.
Qed.

Lemma fenced_weave lines b :
  ∃ marks closing,
    length marks = length lines
    ∧ Forall (fun mark => mark = [] ∨ mark = ["```bash"] ∨ mark = [fence]) marks
    ∧ (closing = [] ∨ closing = [fence])
    ∧ fenced b lines = weave marks lines ++ closing.
Proof.
  revert b. induction lines as [|line lines IH]; intros b.
  - exists [], (if b then [fence] else []). destruct b; simpl; auto.
  - cbn [fenced]. set (trimmed := TrimSpace line).
    destruct (isCommand trimmed).
    + destruct (IH true) as (marks & closing & Hlen & Hmarks & Hclose & ->).
      exists ((if b then [] else ["```bash"]) :: marks), closing.
      repeat split; [simpl; lia | | done | ].
      * constructor; [destruct b; auto | done].
      * unfold weave. simpl. by rewrite <- !app_assoc.
    + destruct (IH false) as (marks & closing & Hlen & Hmarks & Hclose & ->).
      exists ((if b then [fence] else []) :: marks), closing.
      repeat split; [simpl; lia | | done | ].
      * constructor; [destruct b; auto | done].
      * unfold weave. simpl. by rewrite <- !app_assoc.
Qed.

End FormatCodeBlocks.

(** C6: a run of command lines, taken as long as it goes, is put
    between one opening and one closing fence, and what stands before
    and after it is formatted on its own; the fence is closed at the
    first line that is no command or at the end of the input.  On the
    three lines of the example the output is the five lines given. *)
Theorem formatCodeBlocks_fences (before run rest : list string) :
  (∀ line, last before = Some line → plain line) →
  run ≠ [] →
  Forall command run →
  (∀ line, head rest = Some line → plain line) →
  formatLines (before ++ run ++ rest)
  = formatLines before ++ ["```bash"] ++ map TrimSpace run ++ ["```"]
    ++ formatLines rest
  ∧ formatCodeBlocks
      (Join ["kubectl get pods"; "kubectl describe pod x"; "done"] nl)
    = Join ["```bash"; "kubectl get pods"; "kubectl describe pod x"; "```"; "done"] nl.
Proof.
  intros Hbefore Hne Hrun Hrest. split; [|reflexivity].
  rewrite formatLines_after by done.
  by rewrite formatLines_run.
Qed.

Lemma formatCodeBlocks_fences_witness :
  formatLines (["Try:"] ++ ["kubectl get pods"; "  bash fix.sh "] ++ [""; "kubectl top"])
  = formatLines ["Try:"] ++ ["```bash"]
    ++ map TrimSpace ["kubectl get pods"; "  bash fix.sh "] ++ ["```"]
    ++ formatLines [""; "kubectl top"].
Proof.
  refine (proj1 (formatCodeBlocks_fences
                   ["Try:"] ["kubectl get pods"; "  bash fix.sh "] [""; "kubectl top"]
                   _ _ _ _)).
  - intros line [= <-]. reflexivity.
  - discriminate.
  - repeat constructor.
  - intros line [= <-]. reflexivity.
Defined.

(** *** Trimming *)

Section Trimming.

Implicit Types (s t x line : string) (b : ascii).

Lemma sapp_assoc s1 s2 s3 : (s1 +:+ s2) +:+ s3 = s1 +:+ s2 +:+ s3.
Proof. induction s1 as [|c s1 IH]; [done|]. by rewrite !app_String, IH. Qed.

Lemma sapp_empty_r s : s +:+ "" = s.
Proof. induction s as [|c s IH]; [done|]. by rewrite app_String, IH. Qed.

Lemma rev_onto_app s acc : rev_onto s acc = rev_onto s "" +:+ acc.
Proof.
  revert acc. induction s as [|c s IH]; intros acc; [done|].
  simpl. rewrite (IH (String c acc)), (IH (String c "")).
  by rewrite sapp_assoc.
Qed.

Lemma rev_String b s : rev (String b s) = rev s +:+ String b "".
Proof. unfold rev. simpl. apply rev_onto_app. Qed.

Lemma rev_sapp s1 s2 : rev (s1 +:+ s2) = rev s2 +:+ rev s1.
Proof.
  induction s1 as [|c s1 IH].
  - by rewrite app_empty_l, sapp_empty_r.
  - by rewrite app_String, !rev_String, IH, sapp_assoc.
Qed.

Lemma rev_involutive s : rev (rev s) = s.
Proof.
  induction s as [|c s IH]; [done|].
  by rewrite rev_String, rev_sapp, IH.
Qed.

Lemma blank_sapp s1 s2 : blank s1 → blank s2 → blank (s1 +:+ s2).
Proof.
  induction 1 as [|rune rest Hrune _ IH]; intros H2; [done|].
  rewrite sapp_assoc. apply blank_rune; auto.
Qed.

Lemma blank_one rune : rune ∈ spaceRunes → blank rune.
Proof.
  intros H. rewrite <- (sapp_empty_r rune). apply blank_rune; [done|constructor].
Qed.

Lemma byte_is_eq b (n : N) : byte_is b n = true → b = Ascii.ascii_of_N n.
Proof.
  unfold byte_is. intros H%N.eqb_eq. by rewrite <- H, Ascii.ascii_N_embedding.
Qed.

Lemma space1 b : asciiSpace b = true → String b "" ∈ spaceRunes.
Proof.
  destruct b as [[] [] [] [] [] [] [] []]; try discriminate; intros _;
    unfold spaceRunes; repeat constructor.
Qed.

Lemma space2 b0 b1 : isSpace2 b0 b1 = true → String b0 (String b1 "") ∈ spaceRunes.
Proof.
  unfold isSpace2. rewrite andb_true_iff, orb_true_iff.
  intros [->%byte_is_eq [->%byte_is_eq| ->%byte_is_eq]];
    unfold spaceRunes; repeat constructor.
Qed.

Lemma byte_range b : (128 <=? Ascii.N_of_ascii b)%N && (Ascii.N_of_ascii b <=? 138)%N = true →
  ∃ n, (128 <= n <= 138)%N ∧ b = Ascii.ascii_of_N n.
Proof.
  rewrite andb_true_iff, !N.leb_le. intros [H1 H2].
  exists (Ascii.N_of_ascii b). split; [lia|]. by rewrite Ascii.ascii_N_embedding.
Qed.

Lemma space3 b0 b1 b2 :
  isSpace3 b0 b1 b2 = true → String b0 (String b1 (String b2 "")) ∈ spaceRunes.
Proof.
  unfold isSpace3. rewrite !orb_true_iff, !andb_true_iff, !orb_true_iff.
  intros [[[[[H0 H1] H2]|[[H0 H1] H2]]|[[H0 H1] H2]]|[[H0 H1] H2]];
    apply byte_is_eq in H0 as ->; apply byte_is_eq in H1 as ->.
  - apply byte_is_eq in H2 as ->. unfold spaceRunes; repeat constructor.
  - destruct H2 as [[[H2|H2]|H2]|H2].
    + apply byte_range in H2 as (n & Hn & ->).
      assert (n = 128 ∨ n = 129 ∨ n = 130 ∨ n = 131 ∨ n = 132 ∨ n = 133
              ∨ n = 134 ∨ n = 135 ∨ n = 136 ∨ n = 137 ∨ n = 138)%N as Hcases by lia.
      destruct Hcases as [->|[->|[->|[->|[->|[->|[->|[->|[->|[->| ->]]]]]]]]]];
        unfold spaceRunes; repeat constructor.
    + apply byte_is_eq in H2 as ->. unfold spaceRunes; repeat constructor.
    + apply byte_is_eq in H2 as ->. unfold spaceRunes; repeat constructor.
    + apply byte_is_eq in H2 as ->. unfold spaceRunes; repeat constructor.
  - apply byte_is_eq in H2 as ->. unfold spaceRunes; repeat constructor.
  - apply byte_is_eq in H2 as ->. unfold spaceRunes; repeat constructor.
Qed.

Lemma rune_cases rune :
  rune ∈ spaceRunes →
  (∃ b, rune = String b "" ∧ asciiSpace b = true)
  ∨ (∃ b0 b1, rune = String b0 (String b1 "") ∧ isSpace2 b0 b1 = true)
  ∨ (∃ b0 b1 b2, rune = String b0 (String b1 (String b2 ""))
                 ∧ isSpace3 b0 b1 b2 = true).
Proof.
  unfold spaceRunes. rewrite !elem_of_cons, elem_of_nil.
  intros H.
  repeat (destruct H as [->|H];
          [first [ left; eexists; split; reflexivity
                 | right; left; eexists _, _; split; reflexivity
                 | right; right; eexists _, _, _; split; reflexivity ]|]).
  done.
Qed.


(** What is left of a scan from the front begins with no white space. *)
Lemma TrimLeftSpace_head s :
  match TrimLeftSpace s with
  | EmptyString => True
  | String b0 t1 =>
      asciiSpace b0 = false
      ∧ match t1 with
        | EmptyString => True
        | String b1 t2 =>
            isSpace2 b0 b1 = false
            ∧ match t2 with
              | EmptyString => True
              | String b2 _ => isSpace3 b0 b1 b2 = false
              end
        end
  end.
Proof.
  remember (String.length s) as n eqn:Hn.
  assert (String.length s ≤ n)%nat as Hlen by lia. clear Hn.
  revert s Hlen. induction n as [|n IH]; intros s Hlen.
  - destruct s; [done|simpl in Hlen; lia].
  - destruct s as [|b0 s1]; [done|]. simpl in Hlen. cbn [TrimLeftSpace].
    destruct (asciiSpace b0) eqn:H0; [apply IH; lia|].
    destruct s1 as [|b1 s2]; [done|]. simpl in Hlen.
    destruct (isSpace2 b0 b1) eqn:H1; [apply IH; lia|].
    destruct s2 as [|b2 s3]; [done|]. simpl in Hlen.
    destruct (isSpace3 b0 b1 b2) eqn:H2; [apply IH; lia|]. done.
Qed.

Lemma trimRevSpace_head x :
  match trimRevSpace x with
  | EmptyString => True
  | String b0 t1 =>
      asciiSpace b0 = false
      ∧ match t1 with
        | EmptyString => True
        | String b1 t2 =>
            isSpace2 b1 b0 = false
            ∧ match t2 with
              | EmptyString => True
              | String b2 _ => isSpace3 b2 b1 b0 = false
              end
        end
  end.
Proof.
  remember (String.length x) as n eqn:Hn.
  assert (String.length x ≤ n)%nat as Hlen by lia. clear Hn.
  revert x Hlen. induction n as [|n IH]; intros x Hlen.
  - destruct x; [done|simpl in Hlen; lia].
  - destruct x as [|b0 s1]; [done|]. simpl in Hlen. cbn [trimRevSpace].
    destruct (asciiSpace b0) eqn:H0; [apply IH; lia|].
    destruct s1 as [|b1 s2]; [done|]. simpl in Hlen.
    destruct (isSpace2 b1 b0) eqn:H1; [apply IH; lia|].
    destruct s2 as [|b2 s3]; [done|]. simpl in Hlen.
    destruct (isSpace3 b2 b1 b0) eqn:H2; [apply IH; lia|]. done.
Qed.

(** What a scan from the front drops is white space. *)
Lemma TrimLeftSpace_split s : ∃ pre, blank pre ∧ s = pre +:+ TrimLeftSpace s.
Proof.
  remember (String.length s) as n eqn:Hn.
  assert (String.length s ≤ n)%nat as Hlen by lia. clear Hn.
  revert s Hlen. induction n as [|n IH]; intros s Hlen.
  - destruct s; [|simpl in Hlen; lia]. exists "". split; [constructor|done].
  - destruct s as [|b0 s1]; [exists ""; split; [constructor|done]|].
    simpl in Hlen. cbn [TrimLeftSpace].
    destruct (asciiSpace b0) eqn:H0.
    { destruct (IH s1) as (pre & Hpre & Hs); [lia|].
      exists (String b0 "" +:+ pre). split.
      - apply blank_rune; [by apply space1|done].
      - rewrite sapp_assoc, <- Hs. done. }
    destruct s1 as [|b1 s2]; [exists ""; split; [constructor|done]|].
    simpl in Hlen.
    destruct (isSpace2 b0 b1) eqn:H1.
    { destruct (IH s2) as (pre & Hpre & Hs); [lia|].
      exists (String b0 (String b1 "") +:+ pre). split.
      - apply blank_rune; [by apply space2|done].
      - rewrite sapp_assoc, <- Hs. done. }
    destruct s2 as [|b2 s3]; [exists ""; split; [constructor|done]|].
    simpl in Hlen.
    destruct (isSpace3 b0 b1 b2) eqn:H2.
    { destruct (IH s3) as (pre & Hpre & Hs); [lia|].
      exists (String b0 (String b1 (String b2 "")) +:+ pre). split.
      - apply blank_rune; [by apply space3|done].
      - rewrite sapp_assoc, <- Hs. done. }
    exists "". split; [constructor|done].
Qed.

(** What a scan from the end drops is white space, read backwards. *)
Lemma trimRevSpace_split x : ∃ pre, blank (rev pre) ∧ x = pre +:+ trimRevSpace x.
Proof.
  remember (String.length x) as n eqn:Hn.
  assert (String.length x ≤ n)%nat as Hlen by lia. clear Hn.
  revert x Hlen. induction n as [|n IH]; intros x Hlen.
  - destruct x; [|simpl in Hlen; lia]. exists "". split; [constructor|done].
  - destruct x as [|b0 s1]; [exists ""; split; [constructor|done]|].
    simpl in Hlen. cbn [trimRevSpace].
    destruct (asciiSpace b0) eqn:H0.
    { destruct (IH s1) as (pre & Hpre & Hs); [lia|].
      exists (String b0 "" +:+ pre). split.
      - rewrite rev_sapp. apply blank_sapp; [done|].
        apply blank_one. by apply space1.
      - rewrite sapp_assoc, <- Hs. done. }
    destruct s1 as [|b1 s2]; [exists ""; split; [constructor|done]|].
    simpl in Hlen.
    destruct (isSpace2 b1 b0) eqn:H1.
    { destruct (IH s2) as (pre & Hpre & Hs); [lia|].
      exists (String b0 (String b1 "") +:+ pre). split.
      - rewrite rev_sapp. apply blank_sapp; [done|].
        apply blank_one. by apply space2.
      - rewrite sapp_assoc, <- Hs. done. }
    destruct s2 as [|b2 s3]; [exists ""; split; [constructor|done]|].
    simpl in Hlen.
    destruct (isSpace3 b2 b1 b0) eqn:H2.
    { destruct (IH s3) as (pre & Hpre & Hs); [lia|].
      exists (String b0 (String b1 (String b2 "")) +:+ pre). split.
      - rewrite rev_sapp. apply blank_sapp; [done|].
        apply blank_one. by apply space3.
      - rewrite sapp_assoc, <- Hs. done. }
    exists "". split; [constructor|done].
Qed.

Lemma TrimLeftSpace_no_rune s rune rest :
  rune ∈ spaceRunes → TrimLeftSpace s ≠ rune +:+ rest.
Proof.
  intros Hrune Heq. pose proof (TrimLeftSpace_head s) as Hhead.
  rewrite Heq in Hhead.
  destruct (rune_cases rune Hrune)
    as [(b & -> & Hb)|[(b0 & b1 & -> & Hb)|(b0 & b1 & b2 & -> & Hb)]];
    rewrite ?app_String, ?app_empty_l in Hhead; simpl in Hhead.
  - destruct Hhead as [H0 _]. congruence.
  - destruct Hhead as [_ [H1 _]]. congruence.
  - destruct Hhead as [_ [_ H2]]. congruence.
Qed.

Lemma trimRevSpace_no_rune x rune rest :
  rune ∈ spaceRunes → trimRevSpace x ≠ rev rune +:+ rest.
Proof.
  intros Hrune Heq. pose proof (trimRevSpace_head x) as Hhead.
  rewrite Heq in Hhead.
  destruct (rune_cases rune Hrune)
    as [(b & -> & Hb)|[(b0 & b1 & -> & Hb)|(b0 & b1 & b2 & -> & Hb)]];
    rewrite ?rev_String in Hhead;
    change (rev "") with "" in Hhead;
    rewrite ?app_empty_l, ?app_String, ?app_empty_l in Hhead; simpl in Hhead.
  - destruct Hhead as [H0 _]. congruence.
  - destruct Hhead as [_ [H1 _]]. congruence.
  - destruct Hhead as [_ [_ H2]]. congruence.
Qed.

(** [strings.TrimSpace] removes white space from the two ends of a
    string, nothing else, and leaves none at either end. *)
Lemma TrimSpace_trimmed_of line : trimmed_of line (TrimSpace line).
Proof.
  destruct (TrimLeftSpace_split line) as (pre & Hpre & Hline).
  destruct (trimRevSpace_split (rev (TrimLeftSpace line))) as (q & Hq & Hx).
  assert (TrimLeftSpace line = TrimSpace line +:+ rev q) as Hleft.
  { rewrite <- (rev_involutive (TrimLeftSpace line)). rewrite Hx at 1.
    by rewrite rev_sapp. }
  exists pre, (rev q). split; [done|]. split; [done|]. split.
  - by rewrite <- Hleft.
  - intros rune rest Hrune. split.
    + intros Heq. apply (TrimLeftSpace_no_rune line rune (rest +:+ rev q) Hrune).
      by rewrite Hleft, Heq, sapp_assoc.
    + intros Heq.
      apply (trimRevSpace_no_rune (rev (TrimLeftSpace line)) rune (rev rest) Hrune).
      rewrite <- rev_sapp, <- Heq. unfold TrimSpace, TrimRightSpace.
      by rewrite rev_involutive.
Qed.

End Trimming.

Lemma weave_interleave (marks : list (list string)) (lines : list string) :
  weave marks lines = interleave marks (map TrimSpace lines).
Proof.
  unfold weave, interleave. f_equal.
  revert lines. induction marks as [|mark marks IH]; intros [|line lines]; simpl; try done.
  by rewrite IH.
Qed.

(** C10: the output of the formatter is the input's lines in their
    order, every one of them, command or not, inside a fence or not,
    replaced by what is left of it once the white space at its two ends
    is taken away: the line is that text between two stretches of white
    space, and the text neither begins nor ends with white space.  The
    only other lines are the fences put in front of a line and the one
    that may close the text. *)
Theorem formatCodeBlocks_trims (text : string) :
  ∃ trimmed marks closing,
    Forall2 trimmed_of (Split text newline) trimmed
    ∧ length marks = length trimmed
    ∧ Forall (fun mark => mark = [] ∨ mark = ["```bash"] ∨ mark = ["```"]) marks
    ∧ (closing = [] ∨ closing = ["```"])
    ∧ formatCodeBlocks text = Join (interleave marks trimmed ++ closing) nl.
Proof.
  destruct (fenced_weave (Split text newline) false)
    as (marks & closing & Hlen & Hmarks & Hclose & Heq).
  exists (map TrimSpace (Split text newline)), marks, closing.
  split; [|split; [|split; [|split]]]; try done.
  - apply Forall2_fmap_r, Forall_Forall2_diag, Forall_forall.
    intros line _. apply TrimSpace_trimmed_of.
  - by rewrite length_map.
  - unfold formatCodeBlocks. by rewrite formatLines_fenced, Heq, weave_interleave.
Qed.

Example formatCodeBlocks_indentation :
  formatCodeBlocks ("  1. Check the pod:  " +:+ nl +:+ "    kubectl get pods" +:+ nl +:+ "  done ")
  = "1. Check the pod:" +:+ nl +:+ "```bash" +:+ nl +:+ "kubectl get pods" +:+ nl
    +:+ "```" +:+ nl +:+ "done".
Proof. reflexivity. Qed.

(** ** Restart detector *)

Section Detector.

Implicit Types (m : gmap string Time) (tr : list Effect).

Lemma replay_app tr1 tr2 m : replay (tr1 ++ tr2) m = replay tr2 (replay tr1 m).
Proof.
  revert m. induction tr1 as [|e tr1 IH]; intros m; [done|].
  destruct e; simpl; apply IH.
Qed.

Lemma replay_silent tr m : Forall silent tr → replay tr m = m.
Proof.
  induction 1 as [|e tr He _ IH]; [done|].
  destruct e; simpl in *; done.
Qed.

Lemma silent_no_Go tr i name ns t :
  Forall silent tr → tr !! i = Some (Go name ns t) → False.
Proof.
  intros Hs Hi. rewrite Forall_lookup in Hs. exact (Hs _ _ Hi).
Qed.

Lemma Segment_silent tr m : Forall silent tr → Segment m tr m.
Proof.
  intros Hs. split; try (intros; exfalso; eauto using silent_no_Go; fail).
  - by rewrite replay_silent.
  - intros key u Hu. exists u. split; [done|lia].
Qed.

Lemma Segment_nil m : Segment m [] m.
Proof. by apply Segment_silent. Qed.

(** Two stretches one after the other. *)
Lemma Segment_app m tr1 m1 tr2 m2 :
  Segment m tr1 m1 → Segment m1 tr2 m2 → Segment m (tr1 ++ tr2) m2.
Proof.
  intros S1 S2. split.
  - rewrite replay_app, <- (seg_sync _ _ _ S1). apply (seg_sync _ _ _ S2).
  - intros key u Hu.
    destruct (seg_mono _ _ _ S1 _ _ Hu) as (u1 & Hu1 & ?).
    destruct (seg_mono _ _ _ S2 _ _ Hu1) as (u2 & Hu2 & ?).
    exists u2. split; [done|lia].
  - intros i name ns t u Hi Hu.
    apply lookup_app_Some in Hi as [Hi|[_ Hi]].
    + exact (seg_lower _ _ _ S1 _ _ _ _ _ Hi Hu).
    + destruct (seg_mono _ _ _ S1 _ _ Hu) as (u1 & Hu1 & ?).
      pose proof (seg_lower _ _ _ S2 _ _ _ _ _ Hi Hu1). lia.
  - intros i name ns t Hi.
    apply lookup_app_Some in Hi as [Hi|[_ Hi]].
    + destruct (seg_upper _ _ _ S1 _ _ _ _ Hi) as (u1 & Hu1 & ?).
      destruct (seg_mono _ _ _ S2 _ _ Hu1) as (u2 & Hu2 & ?).
      exists u2. split; [done|lia].
    + exact (seg_upper _ _ _ S2 _ _ _ _ Hi).
  - intros i j name ns t t' Hij Hi Hj.
    apply lookup_app_Some in Hi as [Hi|[Hil Hi]];
      apply lookup_app_Some in Hj as [Hj|[Hjl Hj]].
    + exact (seg_order _ _ _ S1 _ _ _ _ _ _ Hij Hi Hj).
    + destruct (seg_upper _ _ _ S1 _ _ _ _ Hi) as (u1 & Hu1 & ?).
      pose proof (seg_lower _ _ _ S2 _ _ _ _ _ Hj Hu1). lia.
    + apply lookup_lt_Some in Hj. lia.
    + apply (seg_order _ _ _ S2 (i - length tr1)%nat (j - length tr1)%nat name ns);
        [lia|done|done].
  - intros i name ns t Hi.
    apply lookup_app_Some in Hi as [Hi|[Hil Hi]].
    + rewrite take_app_le by (apply lookup_lt_Some in Hi; lia).
      exact (seg_stored _ _ _ S1 _ _ _ _ Hi).
    + rewrite take_app_ge, replay_app, <- (seg_sync _ _ _ S1) by done.
      exact (seg_stored _ _ _ S2 _ _ _ _ Hi).
Qed.

(** The three statements of a dispatch, under the test that guards
    them. *)
Lemma Segment_dispatch m name ns t msg :
  (∀ last, m !! dedupKey ns name = Some last → After t last = true) →
  Segment m [Store (dedupKey ns name) t; Log msg; Go name ns t]
    (<[dedupKey ns name := t]> m).
Proof.
  intros Hfresh.
  assert (∀ i n' ns' t', [Store (dedupKey ns name) t; Log msg; Go name ns t] !! i
                         = Some (Go n' ns' t') →
                         i = 2%nat ∧ n' = name ∧ ns' = ns ∧ t' = t) as Honly.
  { intros [|[|[|i]]] n' ns' t' Hi; simplify_eq/=; done. }
  split.
  - reflexivity.
  - intros key u Hu. destruct (decide (key = dedupKey ns name)) as [->|Hne].
    + exists t. rewrite lookup_insert_eq. split; [done|].
      apply Hfresh in Hu. unfold After in Hu. apply Z.ltb_lt in Hu. lia.
    + exists u. rewrite lookup_insert_ne by done. split; [done|lia].
  - intros i n' ns' t' u Hi Hu.
    apply Honly in Hi as (_ & -> & -> & ->).
    apply Hfresh in Hu. unfold After in Hu. by apply Z.ltb_lt in Hu.
  - intros i n' ns' t' Hi.
    apply Honly in Hi as (_ & -> & -> & ->).
    exists t. rewrite lookup_insert_eq. split; [done|lia].
  - intros i j n' ns' t1 t2 Hij Hi Hj.
    apply Honly in Hi as (-> & _). apply Honly in Hj as (-> & _). lia.
  - intros i n' ns' t' Hi.
    apply Honly in Hi as (-> & -> & -> & ->).
    simpl. apply lookup_insert_eq.
Qed.

Lemma Segment_checkContainer pod cs m :
  Segment m (checkContainer pod cs m).1 (checkContainer pod cs m).2.
Proof.
  unfold checkContainer.
  destruct (StartTime pod) as [startTime|]; [|apply Segment_nil].
  destruct (0 <? RestartCount cs); [|apply Segment_nil].
  destruct (m !! dedupKey (Namespace pod) (Name pod)) as [last|] eqn:Hlast.
  - destruct (After startTime last) eqn:Hafter; [|apply Segment_nil].
    apply Segment_dispatch. intros last' Hl. by simplify_eq.
  - apply Segment_dispatch. intros last' Hl. by simplify_eq.
Qed.

Lemma Segment_forEach {A : Type}
    (body : A → gmap string Time → list Effect * gmap string Time)
    (items : list A) m :
  (∀ x m0, Segment m0 (body x m0).1 (body x m0).2) →
  Segment m (forEach body items m).1 (forEach body items m).2.
Proof.
  intros Hbody. revert m.
  induction items as [|x items IH]; intros m; [apply Segment_nil|].
  simpl. specialize (Hbody x m). destruct (body x m) as [tr1 m1].
  specialize (IH m1). destruct (forEach body items m1) as [tr2 m2].
  by eapply Segment_app.
Qed.

Lemma Segment_checkPod pod m : Segment m (checkPod pod m).1 (checkPod pod m).2.
Proof. apply Segment_forEach. intros cs m0. apply Segment_checkContainer. Qed.

Lemma Segment_pollOnce listed m :
  Segment m (pollOnce listed m).1 (pollOnce listed m).2.
Proof.
  destruct listed as [err|pods]; simpl.
  - apply Segment_silent. repeat constructor.
  - pose proof (Segment_forEach checkPod pods m Segment_checkPod) as S.
    destruct (forEach checkPod pods m) as [tr m']. simpl in *.
    change (Segment m ([ListPods] ++ tr ++ [Sleep CHECK_INTERVAL]) m').
    eapply Segment_app; [apply Segment_silent; repeat constructor|].
    eapply Segment_app; [exact S|apply Segment_silent; repeat constructor].
Qed.

Lemma Segment_mainLoop polls m :
  Segment m (mainLoop polls m).1 (mainLoop polls m).2.
Proof. apply Segment_forEach. intros listed m0. apply Segment_pollOnce. Qed.

Lemma Segment_run polls : Segment ∅ (run polls).1 (run polls).2.
Proof. apply Segment_mainLoop. Qed.

End Detector.

(** C1: in the trace of any sequence of polls from the start of the
    process, a task started for a pod after an earlier task for the
    same namespace and name carries a start time strictly later than
    the earlier one; so the same start time is never dispatched twice
    for one key. *)
Theorem dispatch_strictly_later (polls : list (error + list Pod)) (i j : nat)
    (name ns : string) (t t' : Time) :
  (i < j)%nat →
  (run polls).1 !! i = Some (Go name ns t) →
  (run polls).1 !! j = Some (Go name ns t') →
  After t' t = true ∧ t ≠ t'.
Proof.
  intros Hij Hi Hj.
  pose proof (seg_order _ _ _ (Segment_run polls) _ _ _ _ _ _ Hij Hi Hj) as Hlt.
  unfold After. split; [by apply Z.ltb_lt|]. unfold Time in *. lia.
Qed.

Lemma dispatch_strictly_later_witness : After 200 100 = true ∧ (100:Time) ≠ 200.
Proof.
  apply (dispatch_strictly_later three_polls 3 10 "app-1" "ns" 100 200).
  - lia.
  - reflexivity.
  - reflexivity.
Defined.

(** C2: whenever the loop starts a task for a pod with start time
    [t], the map already holds [t] under the pod's key at that point:
    the statements run before the [go] statement, replayed from the
    map the loop began with, give a map whose entry for the key is
    [t].  This holds from every map, for one poll as for many. *)
Theorem store_before_dispatch (polls : list (error + list Pod))
    (m : gmap string Time) (i : nat) (name ns : string) (t : Time) :
  (mainLoop polls m).1 !! i = Some (Go name ns t) →
  replay (take i (mainLoop polls m).1) m !! dedupKey ns name = Some t.
Proof. intros Hi. exact (seg_stored _ _ _ (Segment_mainLoop polls m) _ _ _ _ Hi). Qed.

Lemma store_before_dispatch_witness :
  replay (take 10 (mainLoop three_polls ∅).1) ∅ !! dedupKey "ns" "app-1" = Some 200.
Proof.
  apply (store_before_dispatch three_polls ∅ 10 "app-1" "ns" 200). reflexivity.
Defined.

(** The map the loop ends with is the one its stores build. *)
Lemma run_replay (polls : list (error + list Pod)) :
  (run polls).2 = replay (run polls).1 ∅.
Proof. exact (seg_sync _ _ _ (Segment_run polls)). Qed.

(** *** Pacing of the listings *)

Section Pacing.

Implicit Types (m : gmap string Time) (tr : list Effect).

Lemma forEach_cons {A : Type}
    (body : A → gmap string Time → list Effect * gmap string Time)
    (x : A) (items : list A) m :
  (forEach body (x :: items) m).1
  = (body x m).1 ++ (forEach body items (body x m).2).1.
Proof.
  simpl. destruct (body x m) as [tr1 m1]. simpl.
  by destruct (forEach body items m1).
Qed.

Lemma forEach_Forall {A : Type} (P : Effect → Prop)
    (body : A → gmap string Time → list Effect * gmap string Time)
    (items : list A) m :
  (∀ x m0, Forall P (body x m0).1) → Forall P (forEach body items m).1.
Proof.
  intros Hbody. revert m. induction items as [|x items IH]; intros m.
  - constructor.
  - rewrite forEach_cons. apply Forall_app. split; [apply Hbody|apply IH].
Qed.

Lemma checkContainer_detection pod cs m :
  Forall detection (checkContainer pod cs m).1.
Proof.
  unfold checkContainer.
  repeat (case_match; simpl; try by constructor); repeat constructor.
Qed.

Lemma checkPods_detection pods m : Forall detection (forEach checkPod pods m).1.
Proof.
  apply forEach_Forall. intros pod m0. apply forEach_Forall.
  intros cs m1. apply checkContainer_detection.
Qed.

Lemma paced_from_detection slept tr rest :
  Forall detection tr → paced_from slept (tr ++ rest) = paced_from slept rest.
Proof.
  induction 1 as [|e tr He _ IH]; [done|].
  destruct e; simpl in *; done.
Qed.

(** A listing that succeeded is followed by the sleep. *)
Lemma paced_after_success pods polls m slept :
  paced_from slept (mainLoop (inr pods :: polls) m).1
  = slept && paced_from true (mainLoop polls (forEach checkPod pods m).2).1.
Proof.
  unfold mainLoop. rewrite forEach_cons. simpl.
  pose proof (checkPods_detection pods m) as Hd.
  destruct (forEach checkPod pods m) as [tr m']. simpl in *.
  rewrite <- app_assoc, paced_from_detection by done.
  simpl. by rewrite Z.leb_refl.
Qed.

(** A listing that failed is not. *)
Lemma paced_after_failure err polls m slept :
  paced_from slept (mainLoop (inl err :: polls) m).1
  = slept && paced_from false (mainLoop polls m).1.
Proof. unfold mainLoop. rewrite forEach_cons. reflexivity. Qed.

Lemma paced_all_success polls m :
  Forall (fun listed => ∃ pods, listed = inr pods) polls →
  paced_from true (mainLoop polls m).1 = true.
Proof.
  intros Hall. revert m. induction Hall as [|listed polls [pods ->] _ IH]; intros m.
  - reflexivity.
  - rewrite paced_after_success. apply IH.
Qed.

End Pacing.

(** C4, on the code: after a listing that failed the loop lists
    again without sleeping.  The trace of a failed listing followed by
    any other begins with two listings that have only the log line
    between them, so it is not paced; the loop does go on, the failure
    ends nothing. *)
Theorem listing_failure_retries_at_once (err : error) (next : error + list Pod) :
  (∃ tr, (run [inl err; next]).1
         = [ListPods; Log ("❌ Error fetching pods: " +:+ err); ListPods] ++ tr)
  ∧ paced (run [inl err; next]).1 = false.
Proof.
  split.
  - destruct next as [err'|pods].
    + eexists. reflexivity.
    + unfold run, mainLoop. rewrite !forEach_cons. simpl.
      destruct (forEach checkPod pods ∅) as [tr m']. simpl. eexists. reflexivity.
  - unfold paced, run. rewrite paced_after_failure. simpl.
    destruct next as [err'|pods].
    + by rewrite paced_after_failure.
    + by rewrite paced_after_success.
Qed.

(** ** The analysis task *)

Section TaskFacts.

Lemma task_bind_Some {A B : Type} (m : Task A) (f : A → Task B) (x : A) :
  m.1 = Some x → m ≫= f = ((f x).1, m.2 ++ (f x).2).
Proof.
  destruct m as [[y|] tr]; simpl; intros [= ->].
  unfold mbind, task_bind. by destruct (f x).
Qed.

Lemma posts_app tr1 tr2 : posts (tr1 ++ tr2) = posts tr1 ++ posts tr2.
Proof. apply omap_app. Qed.

Lemma callOllama_trace w logs events :
  (callOllama w logs events).2 = [Generate (ollamaRequest logs events)].
Proof. unfold callOllama. repeat case_match; reflexivity. Qed.

Lemma callOllama_returns w logs events :
  ∃ analysis err, (callOllama w logs events).1 = Some (analysis, err).
Proof. unfold callOllama. repeat case_match; eexists _, _; reflexivity. Qed.

Lemma postToSlack_returns w payload :
  ∃ ref tr, postToSlack w payload = (Some ref, Post payload :: tr) ∧ posts tr = [].
Proof. unfold postToSlack. repeat case_match; eexists _, _; split; reflexivity. Qed.

Lemma sendSlackThread_posts w threadTs message :
  (sendSlackThread w threadTs message).1 = Some tt
  ∧ posts (sendSlackThread w threadTs message).2 = [threadPayload threadTs message].
Proof.
  unfold sendSlackThread.
  destruct (postToSlack_returns w (threadPayload threadTs message))
    as (ref & tr & -> & Htr).
  simpl. rewrite app_nil_r. by rewrite Htr.
Qed.

End TaskFacts.

(** C3 (as amended): when the body of the inference answer decodes
    without error and holds no string under [response], the requester
    returns the text "No response from model" and no error; when
    decoding the body gives an error, it returns that error and no
    text. *)
Theorem callOllama_decoding (w : World) (logs : string) (events : list Event)
    (respBody : string) :
  ollama w (ollamaRequest logs events) = Body respBody →
  (∀ parsed, unmarshal w respBody = (None, parsed) →
             (∀ response, parsed !! "response" ≠ Some (Str response)) →
             (callOllama w logs events).1 = Some ("No response from model", None))
  ∧ (∀ err parsed, unmarshal w respBody = (Some err, parsed) →
                   (callOllama w logs events).1 = Some ("", Some err)).
Proof.
  intros Hbody. unfold callOllama. rewrite Hbody. split.
  - intros parsed -> Hnone. simpl.
    destruct (parsed !! "response") as [[| | |response| |]|] eqn:Hr; try reflexivity.
    by destruct (Hnone response).
  - intros err parsed ->. reflexivity.
Qed.

Lemma callOllama_decoding_witness :
  (callOllama (world (Body answer_without_text) (Body slack_accepted))
     "fatal error: out of memory" [oomKilled]).1
  = Some ("No response from model", None)
  ∧ ∃ err,
      (callOllama (world (Body answer_garbled) (Body slack_accepted))
         "fatal error: out of memory" [oomKilled]).1
      = Some ("", Some err).
Proof.
  split.
  - eapply (proj1 (callOllama_decoding
                     (world (Body answer_without_text) (Body slack_accepted))
                     "fatal error: out of memory" [oomKilled]
                     answer_without_text eq_refl)).
    + vm_compute. reflexivity.
    + intros response H. vm_compute in H. discriminate.
  - eexists.
    eapply (proj2 (callOllama_decoding
                     (world (Body answer_garbled) (Body slack_accepted))
                     "fatal error: out of memory" [oomKilled]
                     answer_garbled eq_refl)).
    vm_compute. reflexivity.
Defined.

(** C3, as stated, fails for a body that does not decode: the decoder
    reports an error, and the requester returns an error, not the
    fallback text. *)
Lemma callOllama_garbled_body :
  (∃ err parsed,
      unmarshal (world (Body answer_garbled) (Body slack_accepted)) answer_garbled
      = (Some err, parsed))
  ∧ (∃ err,
        (callOllama (world (Body answer_garbled) (Body slack_accepted))
           "fatal error: out of memory" [oomKilled]).1
        = Some ("", Some err))
  ∧ (callOllama (world (Body answer_garbled) (Body slack_accepted))
       "fatal error: out of memory" [oomKilled]).1
    ≠ Some ("No response from model", None).
Proof.
  split; [|split].
  - eexists _, _. vm_compute. reflexivity.
  - eexists. vm_compute. reflexivity.
  - vm_compute. discriminate.
Qed.

(** The error ends the task: nothing is sent to Slack. *)
Example garbled_body_aborts :
  posts (analyzePod (world (Body answer_garbled) (Body slack_accepted))
           "app-1" "ns" 100).2 = [].
Proof. vm_compute. reflexivity. Qed.

Ltac task_bind H := rewrite (task_bind_Some _ _ _ H); cbn [fst snd].

(** C7: when the publish of the summary fails, that is returns the
    empty reference, the task sends nothing else to Slack: its posts
    are the summary alone (or none, when the task ended before it),
    and none of the three reply blocks. *)
Theorem failed_parent_no_replies (w : World) (podName namespace : string)
    (restartTime : Time) :
  (sendMainSlackMessage w podName namespace restartTime).1 = Some "" →
  posts (analyzePod w podName namespace restartTime).2 = []
  ∨ posts (analyzePod w podName namespace restartTime).2
    = [summaryPayload w podName namespace restartTime].
Proof.
  intros Hparent. unfold analyzePod.
  task_bind (eq_refl : (perform (GetLogs namespace podName LOG_LINES)).1 = Some tt).
  destruct (getLogs w namespace podName LOG_LINES) as [err|logs]; [by left|].
  task_bind (eq_refl : (perform (ListEvents namespace)).1 = Some tt).
  destruct (listEvents w namespace) as [err|items]; [by left|].
  destruct (callOllama_returns w logs (correlatedEvents podName restartTime items))
    as (analysis & err & Hcall).
  task_bind Hcall. rewrite callOllama_trace.
  destruct err as [err|]; [by left|].
  task_bind Hparent. right.
  unfold sendMainSlackMessage in *.
  destruct (postToSlack_returns w (summaryPayload w podName namespace restartTime))
    as (ref & tr & Hpost & Htr).
  rewrite Hpost. simpl. rewrite app_nil_r. by rewrite Htr.
Qed.

Lemma failed_parent_no_replies_witness :
  posts (analyzePod (world (Body answer_with_text) (Body slack_refused))
           "app-1" "ns" 100).2 = []
  ∨ posts (analyzePod (world (Body answer_with_text) (Body slack_refused))
             "app-1" "ns" 100).2
    = [summaryPayload (world (Body answer_with_text) (Body slack_refused))
         "app-1" "ns" 100].
Proof.
  apply (failed_parent_no_replies
           (world (Body answer_with_text) (Body slack_refused)) "app-1" "ns" 100).
  vm_compute. reflexivity.
Defined.

Lemma truncate_truncated_to (s r : string) (n : Z) :
  0 <= n → truncate s n = Some r → truncated_to n s r.
Proof.
  intros H0 Hr. destruct (Z.le_gt_cases (len s) n) as [Hle|Hgt].
  - left. rewrite truncate_within in Hr by done. by simplify_eq.
  - right. split; [lia|].
    rewrite truncate_beyond in Hr by lia. injection Hr as <-.
    destruct (substring_head s (Z.to_nat n)) as (tail & Hs & Hl).
    { unfold len in Hgt. lia. }
    exists (String.substring 0 (Z.to_nat n) s), tail.
    split; [exact Hs|]. split; [|done]. unfold len. rewrite Hl. lia.
Qed.

(** C8: when the publish of the summary succeeds, with a reference
    that is not empty, the task posts exactly three replies after it,
    each to the channel and in the thread of that reference, in this
    order: the events correlated with the restart, one line each; the
    logs cut to 1000 characters; and the analysis cut to 3000
    characters and then formatted.  Neither cut panics and the task
    ends normally. *)
Theorem successful_parent_three_replies (w : World) (podName namespace : string)
    (restartTime : Time) (logs : string) (items : list Event)
    (analysis threadTS : string) :
  getLogs w namespace podName LOG_LINES = inr logs →
  listEvents w namespace = inr items →
  (callOllama w logs (correlatedEvents podName restartTime items)).1
  = Some (analysis, None) →
  (sendMainSlackMessage w podName namespace restartTime).1 = Some threadTS →
  threadTS ≠ "" →
  ∃ shortLogs shortAnalysis,
    truncated_to 1000 logs shortLogs
    ∧ truncated_to 3000 analysis shortAnalysis
    ∧ (analyzePod w podName namespace restartTime).1 = Some tt
    ∧ posts (analyzePod w podName namespace restartTime).2
      = [{| channel := "#all-vishal-personal";
            text := "*🚨 Pod Restart Detected!*" +:+ nl
                    +:+ ("> *Pod:* `" +:+ podName +:+ "`" +:+ nl)
                    +:+ ("> *Namespace:* `" +:+ namespace +:+ "`" +:+ nl)
                    +:+ ("> *Restart Time:* `" +:+ formatTime w restartTime +:+ "`");
            thread_ts := None |};
         {| channel := "#all-vishal-personal";
            text := "📋 *Events:*" +:+ nl +:+ "```"
                    +:+ Join (map (fun e => Reason e +:+ ": " +:+ Message e)
                                (filter (correlated podName restartTime) items)) nl
                    +:+ "```";
            thread_ts := Some threadTS |};
         {| channel := "#all-vishal-personal";
            text := "📦 *Logs:*" +:+ nl +:+ "```" +:+ shortLogs +:+ "```";
            thread_ts := Some threadTS |};
         {| channel := "#all-vishal-personal";
            text := "🤖 *Analysis:*" +:+ nl +:+ formatCodeBlocks shortAnalysis;
            thread_ts := Some threadTS |}].
Proof.
  intros Hlogs Hitems Hcall Hparent Hne.
  destruct (truncate_total logs 1000) as [shortLogs HshortLogs]; [lia|].
  destruct (truncate_total analysis 3000) as [shortAnalysis HshortAnalysis]; [lia|].
  exists shortLogs, shortAnalysis.
  split; [by apply truncate_truncated_to|].
  split; [by apply truncate_truncated_to|].
  assert (negb (String.eqb threadTS "") = true) as Hguard.
  { apply negb_true_iff, String.eqb_neq, Hne. }
  assert (correlatedEvents podName restartTime items
          = filter (correlated podName restartTime) items) as Hsel.
  { unfold correlatedEvents. by rewrite correlatedEvents_from. }
  unfold analyzePod.
  task_bind (eq_refl : (perform (GetLogs namespace podName LOG_LINES)).1 = Some tt).
  rewrite Hlogs.
  task_bind (eq_refl : (perform (ListEvents namespace)).1 = Some tt).
  rewrite Hitems.
  task_bind Hcall. rewrite callOllama_trace.
  task_bind Hparent. rewrite Hguard.
  task_bind (proj1 (sendSlackThread_posts w threadTS
    ("📋 *Events:*" +:+ nl +:+ fence
     +:+ formatEvents (correlatedEvents podName restartTime items) +:+ fence))).
  rewrite HshortLogs.
  task_bind (eq_refl : (orPanic (Some shortLogs)).1 = Some shortLogs).
  task_bind (proj1 (sendSlackThread_posts w threadTS
    ("📦 *Logs:*" +:+ nl +:+ fence +:+ shortLogs +:+ fence))).
  rewrite HshortAnalysis.
  task_bind (eq_refl : (orPanic (Some shortAnalysis)).1 = Some shortAnalysis).
  split; [apply sendSlackThread_posts|].
  rewrite !posts_app, !(proj2 (sendSlackThread_posts _ _ _)).
  unfold sendMainSlackMessage.
  destruct (postToSlack_returns w (summaryPayload w podName namespace restartTime))
    as (ref & tr & -> & Htr).
  simpl. rewrite Htr, Hsel. reflexivity.
Qed.

Lemma successful_parent_three_replies_witness :
  ∃ shortLogs shortAnalysis,
    truncated_to 1000 "fatal error: out of memory" shortLogs
    ∧ truncated_to 3000 "Check the image tag." shortAnalysis
    ∧ (analyzePod (world (Body answer_with_text) (Body slack_accepted))
         "app-1" "ns" 100).1 = Some tt
    ∧ posts (analyzePod (world (Body answer_with_text) (Body slack_accepted))
               "app-1" "ns" 100).2
      = [{| channel := "#all-vishal-personal";
            text := "*🚨 Pod Restart Detected!*" +:+ nl
                    +:+ ("> *Pod:* `" +:+ "app-1" +:+ "`" +:+ nl)
                    +:+ ("> *Namespace:* `" +:+ "ns" +:+ "`" +:+ nl)
                    +:+ ("> *Restart Time:* `" +:+ "2024-05-01 12:00:00" +:+ "`");
            thread_ts := None |};
         {| channel := "#all-vishal-personal";
            text := "📋 *Events:*" +:+ nl +:+ "```"
                    +:+ Join (map (fun e => Reason e +:+ ": " +:+ Message e)
                                (filter (correlated "app-1" 100) [oomKilled])) nl
                    +:+ "```";
            thread_ts := Some "1700000000.000100" |};
         {| channel := "#all-vishal-personal";
            text := "📦 *Logs:*" +:+ nl +:+ "```" +:+ shortLogs +:+ "```";
            thread_ts := Some "1700000000.000100" |};
         {| channel := "#all-vishal-personal";
            text := "🤖 *Analysis:*" +:+ nl +:+ formatCodeBlocks shortAnalysis;
            thread_ts := Some "1700000000.000100" |}].
Proof.
  apply (successful_parent_three_replies
           (world (Body answer_with_text) (Body slack_accepted)) "app-1" "ns" 100
           "fatal error: out of memory" [oomKilled]
           "Check the image tag." "1700000000.000100").
  - reflexivity.
  - reflexivity.
  - vm_compute. reflexivity.
  - vm_compute. reflexivity.
  - discriminate.
Defined.

(** Whatever Slack answers, a message of the task outside a thread is
    the summary: no reply block goes out unthreaded. *)
Lemma replies_are_threaded (w : World) (podName namespace : string)
    (restartTime : Time) (payload : SlackPayload) :
  payload ∈ posts (analyzePod w podName namespace restartTime).2 →
  payload = summaryPayload w podName namespace restartTime
  ∨ ∃ threadTS, threadTS ≠ "" ∧ thread_ts payload = Some threadTS.
Proof.
  unfold analyzePod.
  task_bind (eq_refl : (perform (GetLogs namespace podName LOG_LINES)).1 = Some tt).
  destruct (getLogs w namespace podName LOG_LINES) as [err|logs];
    [intros H; by apply elem_of_nil in H|].
  task_bind (eq_refl : (perform (ListEvents namespace)).1 = Some tt).
  destruct (listEvents w namespace) as [err|items];
    [intros H; by apply elem_of_nil in H|].
  destruct (callOllama_returns w logs (correlatedEvents podName restartTime items))
    as (analysis & err & Hcall).
  task_bind Hcall. rewrite callOllama_trace.
  destruct err as [err|]; [intros H; by apply elem_of_nil in H|].
  unfold sendMainSlackMessage.
  destruct (postToSlack_returns w (summaryPayload w podName namespace restartTime))
    as (threadTS & tr & Hpost & Htr).
  task_bind (f_equal fst Hpost). rewrite Hpost. cbn [snd].
  destruct (String.eqb threadTS "") eqn:Hts; cbn [negb].
  - simpl. rewrite posts_app, Htr. simpl. rewrite list_elem_of_singleton. auto.
  - apply String.eqb_neq in Hts.
    destruct (truncate_total logs 1000) as [shortLogs ->]; [lia|].
    destruct (truncate_total analysis 3000) as [shortAnalysis ->]; [lia|].
    task_bind (proj1 (sendSlackThread_posts w threadTS
      ("📋 *Events:*" +:+ nl +:+ fence
       +:+ formatEvents (correlatedEvents podName restartTime items) +:+ fence))).
    task_bind (eq_refl : (orPanic (Some shortLogs)).1 = Some shortLogs).
    task_bind (proj1 (sendSlackThread_posts w threadTS
      ("📦 *Logs:*" +:+ nl +:+ fence +:+ shortLogs +:+ fence))).
    task_bind (eq_refl : (orPanic (Some shortAnalysis)).1 = Some shortAnalysis).
    rewrite !posts_app, !(proj2 (sendSlackThread_posts _ _ _)).
    simpl. rewrite Htr. simpl.
    rewrite !elem_of_cons, elem_of_nil.
    intros [->|[->|[->|[->|[]]]]]; eauto.
Qed.

(** * Properties beyond the claims *)

(** ** Restart detector *)

Section DetectorMore.

Implicit Types (m : gmap string Time) (tr : list Effect) (pod : Pod).

Lemma checkContainer_stale pod cs m :
  StartTime pod = None
  ∨ RestartCount cs <= 0
  ∨ (∃ t last : Time, StartTime pod = Some t
               ∧ m !! dedupKey (Namespace pod) (Name pod) = Some last ∧ t <= last) →
  checkContainer pod cs m = ([], m).
Proof.
  unfold checkContainer. cbv zeta.
  intros [->|[Hcount|(t & last & -> & -> & Hle)]].
  - done.
  - destruct (StartTime pod); [|done].
    by rewrite (proj2 (Z.ltb_ge _ _) Hcount).
  - destruct (0 <? RestartCount cs); [|done].
    unfold After. by rewrite (proj2 (Z.ltb_ge _ _) Hle).
Qed.

Lemma checkContainer_fresh pod cs m t :
  StartTime pod = Some t →
  0 < RestartCount cs →
  (∀ last : Time, m !! dedupKey (Namespace pod) (Name pod) = Some last → last < t) →
  checkContainer pod cs m
  = (dispatch pod t, <[dedupKey (Namespace pod) (Name pod) := t]> m).
Proof.
  unfold checkContainer. cbv zeta. intros -> Hcount Hfresh.
  rewrite (proj2 (Z.ltb_lt _ _) Hcount).
  destruct (m !! dedupKey (Namespace pod) (Name pod)) as [last|] eqn:Hlast; [|done].
  unfold After. by rewrite (proj2 (Z.ltb_lt _ _) (Hfresh last eq_refl)).
Qed.

(** A loop whose body does nothing on the map at hand does nothing. *)
Lemma forEach_quiet {A : Type}
    (body : A → gmap string Time → list Effect * gmap string Time)
    (items : list A) m :
  (∀ x, x ∈ items → body x m = ([], m)) → forEach body items m = ([], m).
Proof.
  induction items as [|x items IH]; intros Hbody; [done|].
  simpl. rewrite (Hbody x) by apply list_elem_of_here.
  rewrite IH; [done|]. intros y Hy. apply Hbody. by apply list_elem_of_further.
Qed.

(** A pod with nothing new to report. *)
Lemma checkPod_stale (pod : Pod) (m : gmap string Time) :
  StartTime pod = None
  ∨ Forall (fun cs => RestartCount cs <= 0) (ContainerStatuses pod)
  ∨ (∃ t last : Time, StartTime pod = Some t
               ∧ m !! dedupKey (Namespace pod) (Name pod) = Some last ∧ t <= last) →
  checkPod pod m = ([], m).
Proof.
  intros H. apply forEach_quiet. intros cs Hcs. apply checkContainer_stale.
  destruct H as [H|[H|H]]; [by left| |by right; right].
  right; left. rewrite Forall_forall in H. by apply H.
Qed.


(** X1: a pod is passed over, without any effect and with the map left
    as it is, when its start time is nil, when none of its containers
    has a positive restart count, or when the map already holds a start
    time for its key that is not earlier than the one observed. *)
Theorem checkPod_passes_over (pod : Pod) (m : gmap string Time) :
  StartTime pod = None
  ∨ Forall (fun cs => RestartCount cs <= 0) (ContainerStatuses pod)
  ∨ (∃ t last : Time, StartTime pod = Some t
               ∧ m !! dedupKey (Namespace pod) (Name pod) = Some last ∧ t <= last) →
  checkPod pod m = ([], m).
Proof. apply checkPod_stale. Qed.

Lemma checkPod_passes_over_witness :
  checkPod (app1 100 0) ∅ = ([], ∅)
  ∧ checkPod (app1 100 3) {[ "ns/app-1" := 100 ]} = ([], {[ "ns/app-1" := 100 ]}).
Proof.
  split.
  - apply (checkPod_passes_over (app1 100 0) ∅).
    right; left. repeat (constructor; [simpl; lia|]). constructor.
  - apply (checkPod_passes_over (app1 100 3) {[ "ns/app-1" := 100 ]}).
    right; right. exists 100, 100. repeat split. lia.
Defined.

(** A pod with a restart not yet notified. *)
Lemma checkPod_fresh (pod : Pod) (m : gmap string Time) (t : Time) :
  StartTime pod = Some t →
  restarted pod →
  (∀ last : Time, m !! dedupKey (Namespace pod) (Name pod) = Some last → last < t) →
  checkPod pod m
  = (dispatch pod t, <[dedupKey (Namespace pod) (Name pod) := t]> m).
Proof.
  intros Hstart Hrestarted Hfresh. unfold checkPod, restarted in *.
  induction Hrestarted as [cs rest Hcs|cs rest _ IH].
  - simpl. rewrite (checkContainer_fresh pod cs m t) by done.
    rewrite forEach_quiet; [by rewrite app_nil_r|].
    intros cs' _. apply checkContainer_stale. right; right.
    exists t, t. rewrite lookup_insert_eq. repeat split; [done|lia].
  - destruct (decide (0 < RestartCount cs)) as [Hcs|Hcs].
    + simpl. rewrite (checkContainer_fresh pod cs m t) by done.
      rewrite forEach_quiet; [by rewrite app_nil_r|].
      intros cs' _. apply checkContainer_stale. right; right.
      exists t, t. rewrite lookup_insert_eq. repeat split; [done|lia].
    + simpl. rewrite (checkContainer_stale pod cs m) by (right; left; lia).
      by rewrite IH.
Qed.


(** X2: a pod with a start time, at least one restarted container and
    no entry in the map as late as that start time is taken up exactly
    once in a poll, however many of its containers have restarted: one
    store, one log line, one task. *)
Theorem checkPod_dispatches_once (pod : Pod) (m : gmap string Time) (t : Time) :
  StartTime pod = Some t →
  restarted pod →
  (∀ last : Time, m !! dedupKey (Namespace pod) (Name pod) = Some last → last < t) →
  checkPod pod m
  = (dispatch pod t, <[dedupKey (Namespace pod) (Name pod) := t]> m).
Proof. apply checkPod_fresh. Qed.

Lemma checkPod_dispatches_once_witness :
  checkPod (app1 200 2) {[ "ns/app-1" := 100 ]}
  = (dispatch (app1 200 2) 200, <[ "ns/app-1" := 200 ]> {[ "ns/app-1" := 100 ]}).
Proof.
  apply (checkPod_dispatches_once (app1 200 2) {[ "ns/app-1" := 100 ]} 200).
  - reflexivity.
  - repeat constructor.
  - intros last Hlast. vm_compute in Hlast. injection Hlast as <-. lia.
Defined.

(** The map covers [pod]: it holds a start time for the pod's key that
    is not earlier than the pod's own, if the pod has restarted. *)
Lemma covered_passes_over pod m :
  (∀ t, StartTime pod = Some t → restarted pod →
        ∃ u, m !! dedupKey (Namespace pod) (Name pod) = Some u ∧ t <= u) →
  checkPod pod m = ([], m).
Proof.
  intros Hcov. apply checkPod_stale.
  destruct (StartTime pod) as [t|] eqn:Hstart; [|by left]. right.
  destruct (decide (restarted pod)) as [Hr|Hr].
  - right. destruct (Hcov t eq_refl Hr) as (u & Hu & Hle). by exists t, u.
  - left. unfold restarted in Hr. apply not_Exists_Forall in Hr; [|intros cs; apply _].
    eapply Forall_impl; [exact Hr|]. simpl. intros cs Hcs. lia.
Qed.

Lemma checkPod_covers pod m t :
  StartTime pod = Some t → restarted pod →
  ∃ u, (checkPod pod m).2 !! dedupKey (Namespace pod) (Name pod) = Some u ∧ t <= u.
Proof.
  intros Hstart Hr.
  destruct (m !! dedupKey (Namespace pod) (Name pod)) as [last|] eqn:Hlast.
  - destruct (decide (last < t)) as [Hlt|Hge].
    + rewrite (checkPod_fresh pod m t); [|done|done|].
      * exists t. simpl. rewrite lookup_insert_eq. split; [done|lia].
      * intros last' Hl. assert (last' = last) as -> by congruence. done.
    + rewrite checkPod_stale.
      * exists last. split; [done|lia].
      * right; right. exists t, last. repeat split; [done..|lia].
  - rewrite (checkPod_fresh pod m t); [|done|done|].
    + exists t. simpl. rewrite lookup_insert_eq. split; [done|lia].
    + intros last' Hl. congruence.
Qed.

Lemma forEach_checkPod_covers pods m pod t :
  pod ∈ pods → StartTime pod = Some t → restarted pod →
  ∃ u, (forEach checkPod pods m).2 !! dedupKey (Namespace pod) (Name pod) = Some u
       ∧ t <= u.
Proof.
  intros Hin Hstart Hr. revert m.
  induction pods as [|pod' pods IH]; intros m; [by apply elem_of_nil in Hin|].
  pose proof (Segment_forEach checkPod pods (checkPod pod' m).2 Segment_checkPod) as S.
  simpl. destruct (checkPod pod' m) as [tr1 m1] eqn:H1.
  destruct (forEach checkPod pods m1) as [tr2 m2] eqn:H2. simpl in *.
  apply elem_of_cons in Hin as [->|Hin].
  - destruct (checkPod_covers pod' m t Hstart Hr) as (u & Hu & Hle).
    rewrite H1 in Hu. simpl in Hu. rewrite H2 in S. simpl in S.
    destruct (seg_mono _ _ _ S _ _ Hu) as (u' & Hu' & Hle').
    exists u'. split; [done|lia].
  - specialize (IH Hin m1). by rewrite H2 in IH.
Qed.

End DetectorMore.

(** X3: listing the same pods again right after a poll changes
    nothing: the second turn starts no task, stores nothing and leaves
    the map as the first turn left it. *)
Theorem repoll_is_idle (pods : list Pod) (m : gmap string Time) :
  pollOnce (inr pods) (pollOnce (inr pods) m).2
  = ([ListPods; Sleep CHECK_INTERVAL], (pollOnce (inr pods) m).2).
Proof.
  assert ((pollOnce (inr pods) m).2 = (forEach checkPod pods m).2) as ->.
  { simpl. by destruct (forEach checkPod pods m). }
  simpl. rewrite forEach_quiet; [done|].
  intros pod Hpod. apply covered_passes_over.
  intros t Hstart Hr. by apply forEach_checkPod_covers.
Qed.

(** X4: the map only grows along the loop: a key it holds is never
    removed, and the start time under it never moves back. *)
Theorem dedup_map_monotone (polls : list (error + list Pod))
    (m : gmap string Time) (key : string) (u : Time) :
  m !! key = Some u →
  ∃ u', (mainLoop polls m).2 !! key = Some u' ∧ u <= u'.
Proof. intros Hu. exact (seg_mono _ _ _ (Segment_mainLoop polls m) _ _ Hu). Qed.

Lemma dedup_map_monotone_witness :
  ∃ u', (mainLoop three_polls {[ "ns/app-1" := 150 ]}).2 !! "ns/app-1" = Some u'
        ∧ 150 <= u'.
Proof.
  apply (dedup_map_monotone three_polls {[ "ns/app-1" := 150 ]} "ns/app-1" 150).
  reflexivity.
Defined.

Section DetectorCauses.

Implicit Types (m : gmap string Time) (tr : list Effect) (pod : Pod).

Lemma forEach_elem {A : Type}
    (body : A → gmap string Time → list Effect * gmap string Time)
    (items : list A) m (e : Effect) :
  e ∈ (forEach body items m).1 → ∃ x m0, x ∈ items ∧ e ∈ (body x m0).1.
Proof.
  revert m. induction items as [|x items IH]; intros m.
  - simpl. intros H. by apply elem_of_nil in H.
  - rewrite forEach_cons. intros [H|H]%elem_of_app.
    + exists x, m. split; [apply list_elem_of_here|done].
    + destruct (IH _ H) as (y & m0 & Hy & He).
      exists y, m0. split; [by apply list_elem_of_further|done].
Qed.

Lemma checkContainer_Go pod cs m name ns t :
  Go name ns t ∈ (checkContainer pod cs m).1 →
  name = Name pod ∧ ns = Namespace pod ∧ StartTime pod = Some t
  ∧ 0 < RestartCount cs.
Proof.
  unfold checkContainer. cbv zeta.
  destruct (StartTime pod) as [startTime|];
    [|intros H; by apply elem_of_nil in H].
  destruct (0 <? RestartCount cs) eqn:Hcount;
    [|intros H; by apply elem_of_nil in H].
  apply Z.ltb_lt in Hcount.
  destruct (match m !! dedupKey (Namespace pod) (Name pod) with
            | Some last => After startTime last
            | None => true
            end); [|intros H; by apply elem_of_nil in H].
  simpl. rewrite !elem_of_cons, elem_of_nil.
  intros [H|[H|[H|[]]]]; simplify_eq. done.
Qed.

(** A relation between the map before a stretch of the loop, its
    trace and the map after holds for a loop when it holds for no step,
    for each turn of the body, and for two stretches in a row. *)
Lemma forEach_rel {A : Type}
    (R : gmap string Time → list Effect → gmap string Time → Prop)
    (body : A → gmap string Time → list Effect * gmap string Time)
    (items : list A) :
  (∀ m, R m [] m) →
  (∀ m tr1 m1 tr2 m2, R m tr1 m1 → R m1 tr2 m2 → R m (tr1 ++ tr2) m2) →
  (∀ x m, R m (body x m).1 (body x m).2) →
  ∀ m, R m (forEach body items m).1 (forEach body items m).2.
Proof.
  intros Hnil Happ Hbody. induction items as [|x items IH]; intros m; [apply Hnil|].
  simpl. specialize (Hbody x m). destruct (body x m) as [tr1 m1].
  specialize (IH m1). destruct (forEach body items m1) as [tr2 m2].
  by eapply Happ.
Qed.

Lemma accounted_same m tr : accounted m tr m.
Proof. intros key t H. by left. Qed.

Lemma accounted_nil m : accounted m [] m.
Proof. apply accounted_same. Qed.

Lemma accounted_app m tr1 m1 tr2 m2 :
  accounted m tr1 m1 → accounted m1 tr2 m2 → accounted m (tr1 ++ tr2) m2.
Proof.
  intros H1 H2 key t Ht.
  destruct (H2 key t Ht) as [Hm1|(name & ns & -> & Hgo)].
  - destruct (H1 key t Hm1) as [Hm|(name & ns & -> & Hgo)]; [by left|].
    right. exists name, ns. split; [done|]. apply elem_of_app. by left.
  - right. exists name, ns. split; [done|]. apply elem_of_app. by right.
Qed.

Lemma accounted_checkContainer pod cs m :
  accounted m (checkContainer pod cs m).1 (checkContainer pod cs m).2.
Proof.
  unfold checkContainer. cbv zeta.
  destruct (StartTime pod) as [startTime|]; [|apply accounted_same].
  destruct (0 <? RestartCount cs); [|apply accounted_same].
  destruct (match m !! dedupKey (Namespace pod) (Name pod) with
            | Some last => After startTime last
            | None => true
            end); [|apply accounted_same].
  intros key t. simpl. intros [[<- <-]|[_ Hm]]%lookup_insert_Some; [|by left].
  right. exists (Name pod), (Namespace pod). split; [done|].
  rewrite !elem_of_cons. auto.
Qed.

Lemma accounted_pollOnce listed m :
  accounted m (pollOnce listed m).1 (pollOnce listed m).2.
Proof.
  destruct listed as [err|pods]; simpl; [apply accounted_same|].
  pose proof (forEach_rel accounted checkPod pods accounted_nil accounted_app) as H.
  specialize (H (fun pod m0 =>
    forEach_rel accounted (checkContainer pod) (ContainerStatuses pod)
      accounted_nil accounted_app (accounted_checkContainer pod) m0) m).
  destruct (forEach checkPod pods m) as [tr m']. simpl in *.
  change (accounted m ([ListPods] ++ tr ++ [Sleep CHECK_INTERVAL]) m').
  eapply accounted_app; [apply accounted_same|].
  eapply accounted_app; [exact H|apply accounted_same].
Qed.

Lemma accounted_mainLoop polls m :
  accounted m (mainLoop polls m).1 (mainLoop polls m).2.
Proof.
  apply (forEach_rel accounted pollOnce polls accounted_nil accounted_app
           accounted_pollOnce m).
Qed.

End DetectorCauses.

(** X5: a task is only ever started for a pod that some listing
    returned with a start time and a container whose restart count is
    positive, and it carries that pod's name, namespace and start
    time. *)
Theorem dispatch_has_cause (polls : list (error + list Pod))
    (m : gmap string Time) (name ns : string) (t : Time) :
  Go name ns t ∈ (mainLoop polls m).1 →
  ∃ pods pod cs,
    inr pods ∈ polls ∧ pod ∈ pods ∧ cs ∈ ContainerStatuses pod
    ∧ Name pod = name ∧ Namespace pod = ns ∧ StartTime pod = Some t
    ∧ 0 < RestartCount cs.
Proof.
  intros Hgo. apply forEach_elem in Hgo as (listed & m0 & Hlisted & Hgo).
  destruct listed as [err|pods].
  - simpl in Hgo. rewrite !elem_of_cons, elem_of_nil in Hgo.
    destruct Hgo as [?|[?|[]]]; discriminate.
  - simpl in Hgo. destruct (forEach checkPod pods m0) as [tr m'] eqn:Hpods.
    simpl in Hgo. rewrite elem_of_cons, elem_of_app, list_elem_of_singleton in Hgo.
    destruct Hgo as [?|[Hgo|?]]; [discriminate| |discriminate].
    assert (Go name ns t ∈ (forEach checkPod pods m0).1) as Hgo' by by rewrite Hpods.
    apply forEach_elem in Hgo' as (pod & m1 & Hpod & Hgo').
    apply forEach_elem in Hgo' as (cs & m2 & Hcs & Hgo').
    apply checkContainer_Go in Hgo' as (-> & -> & Hstart & Hcount).
    by exists pods, pod, cs.
Qed.

Lemma dispatch_has_cause_witness :
  ∃ pods pod cs,
    inr pods ∈ three_polls ∧ pod ∈ pods ∧ cs ∈ ContainerStatuses pod
    ∧ Name pod = "app-1" ∧ Namespace pod = "ns" ∧ StartTime pod = Some 200
    ∧ 0 < RestartCount cs.
Proof.
  apply (dispatch_has_cause three_polls ∅ "app-1" "ns" 200).
  vm_compute. repeat constructor.
Defined.

(** X6: the map never holds a start time that was not dispatched: an
    entry found after the loop was there before it or is the key and
    start time of a task started on the way. *)
Theorem stored_times_were_dispatched (polls : list (error + list Pod))
    (m : gmap string Time) (key : string) (t : Time) :
  (mainLoop polls m).2 !! key = Some t →
  m !! key = Some t
  ∨ ∃ name ns, key = dedupKey ns name ∧ Go name ns t ∈ (mainLoop polls m).1.
Proof. apply accounted_mainLoop. Qed.

Lemma stored_times_were_dispatched_witness :
  (∅ : gmap string Time) !! "ns/app-1" = Some 200
  ∨ ∃ name ns, "ns/app-1" = dedupKey ns name
               ∧ Go name ns 200 ∈ (mainLoop three_polls ∅).1.
Proof.
  apply (stored_times_were_dispatched three_polls ∅ "ns/app-1" 200).
  vm_compute. reflexivity.
Defined.

(** X7: the key of the map tells pods apart as long as namespaces hold
    no slash (as in the cluster, where they are DNS labels): two pods
    with the same key then have the same namespace and the same name. *)
Theorem dedupKey_injective (ns1 name1 ns2 name2 : string) :
  has_byte "/" ns1 = false →
  has_byte "/" ns2 = false →
  dedupKey ns1 name1 = dedupKey ns2 name2 →
  ns1 = ns2 ∧ name1 = name2.
Proof.
  unfold dedupKey. revert ns2.
  induction ns1 as [|c1 ns1 IH]; intros [|c2 ns2] H1 H2 Hkey; simpl in *.
  - rewrite !app_empty_l, !app_String, !app_empty_l in Hkey.
    by injection Hkey as ->.
  - rewrite app_empty_l, !app_String in Hkey. injection Hkey as <- _.
    by rewrite Ascii.eqb_refl in H2.
  - rewrite app_empty_l, !app_String in Hkey. injection Hkey as -> _.
    by rewrite Ascii.eqb_refl in H1.
  - rewrite !app_String in Hkey. injection Hkey as -> Hkey.
    apply orb_false_iff in H1 as [_ H1]. apply orb_false_iff in H2 as [_ H2].
    destruct (IH ns2 H1 H2 Hkey) as [-> ->]. done.
Qed.

Lemma dedupKey_injective_witness : "ns" = "ns" ∧ "app-1" = "app-1".
Proof.
  apply (dedupKey_injective "ns" "app-1" "ns" "app-1"); reflexivity.
Defined.

(** With a slash in a namespace two pods can share a key. *)
Example dedupKey_collision : dedupKey "a/b" "c" = dedupKey "a" "b/c".
Proof. reflexivity. Qed.

Section PacingMore.

Implicit Types (m : gmap string Time).

Lemma paced_from_false polls m :
  paced_from false (mainLoop polls m).1 = true ↔ polls = [].
Proof.
  destruct polls as [|[err|pods] polls].
  - done.
  - rewrite paced_after_failure. done.
  - rewrite paced_after_success. done.
Qed.

Lemma paced_from_true polls m :
  paced_from true (mainLoop polls m).1 = true ↔ only_last_fails polls.
Proof.
  unfold only_last_fails. revert m.
  induction polls as [|[err|pods] polls IH]; intros m.
  - split; [|done]. intros _ i err Hi. by rewrite lookup_nil in Hi.
  - rewrite paced_after_failure. simpl. rewrite paced_from_false. split.
    + intros -> [|i] err' Hi; [done|]. by rewrite lookup_cons, lookup_nil in Hi.
    + intros H. specialize (H 0%nat err eq_refl). simpl in H.
      destruct polls; [done|]. simpl in H. lia.
  - rewrite paced_after_success. simpl. rewrite IH. split.
    + intros H [|i] err Hi; [done|]. simpl in *. f_equal. by eapply H.
    + intros H i err Hi. specialize (H (S i) err Hi). simpl in H. lia.
Qed.

End PacingMore.

(** X8: the listings of a run are paced, each one after the first
    coming after a sleep of the check interval, exactly when no failed
    listing is followed by another turn of the loop. *)
Theorem paced_iff_only_last_fails (polls : list (error + list Pod)) :
  paced (run polls).1 = true ↔ only_last_fails polls.
Proof. apply paced_from_true. Qed.

(** ** The analysis task *)

Section TaskMore.

Implicit Types (w : World) (tr : list Effect).

Lemma posts_logged tr : Forall logged tr → posts tr = [].
Proof.
  induction 1 as [|e tr He _ IH]; [done|].
  destruct e; simpl in *; done.
Qed.

Lemma postToSlack_shape w payload :
  ∃ ref logs, postToSlack w payload = (Some ref, Post payload :: logs)
              ∧ Forall logged logs.
Proof.
  unfold postToSlack.
  repeat case_match; eexists _, _; (split; [reflexivity|]); repeat constructor.
Qed.

Lemma sendSlackThread_shape w threadTs message :
  ∃ logs, sendSlackThread w threadTs message
          = (Some tt, Post (threadPayload threadTs message) :: logs)
          ∧ Forall logged logs.
Proof.
  unfold sendSlackThread.
  destruct (postToSlack_shape w (threadPayload threadTs message))
    as (ref & logs & -> & Hlogs).
  exists logs. simpl. by rewrite app_nil_r.
Qed.

(** The five ways a task can go. *)
Lemma analyzePod_cases w podName namespace restartTime (P : Task unit → Prop) :
  (∀ err,
      getLogs w namespace podName LOG_LINES = inl err →
      P (Some tt,
         [GetLogs namespace podName LOG_LINES;
          Log ("❌ Failed to get logs for " +:+ podName +:+ ": " +:+ err)])) →
  (∀ logs err,
      getLogs w namespace podName LOG_LINES = inr logs →
      listEvents w namespace = inl err →
      P (Some tt,
         [GetLogs namespace podName LOG_LINES; ListEvents namespace;
          Log ("❌ Failed to get events for " +:+ podName +:+ ": " +:+ err)])) →
  (∀ logs items text err,
      getLogs w namespace podName LOG_LINES = inr logs →
      listEvents w namespace = inr items →
      (callOllama w logs (correlatedEvents podName restartTime items)).1
      = Some (text, Some err) →
      P (Some tt,
         [GetLogs namespace podName LOG_LINES; ListEvents namespace;
          Generate (ollamaRequest logs (correlatedEvents podName restartTime items));
          Log ("❌ Failed to analyze pod " +:+ podName +:+ ": " +:+ err)])) →
  (∀ logs items analysis l0,
      getLogs w namespace podName LOG_LINES = inr logs →
      listEvents w namespace = inr items →
      (callOllama w logs (correlatedEvents podName restartTime items)).1
      = Some (analysis, None) →
      sendMainSlackMessage w podName namespace restartTime
      = (Some "", Post (summaryPayload w podName namespace restartTime) :: l0) →
      Forall logged l0 →
      P (Some tt,
         [GetLogs namespace podName LOG_LINES; ListEvents namespace;
          Generate (ollamaRequest logs (correlatedEvents podName restartTime items));
          Post (summaryPayload w podName namespace restartTime)] ++ l0)) →
  (∀ logs items analysis threadTS shortLogs shortAnalysis l0 l1 l2 l3,
      getLogs w namespace podName LOG_LINES = inr logs →
      listEvents w namespace = inr items →
      (callOllama w logs (correlatedEvents podName restartTime items)).1
      = Some (analysis, None) →
      sendMainSlackMessage w podName namespace restartTime
      = (Some threadTS, Post (summaryPayload w podName namespace restartTime) :: l0) →
      threadTS ≠ "" →
      truncate logs 1000 = Some shortLogs →
      truncate analysis 3000 = Some shortAnalysis →
      Forall logged l0 → Forall logged l1 → Forall logged l2 → Forall logged l3 →
      P (Some tt,
         [GetLogs namespace podName LOG_LINES; ListEvents namespace;
          Generate (ollamaRequest logs (correlatedEvents podName restartTime items));
          Post (summaryPayload w podName namespace restartTime)] ++ l0
         ++ Post (threadPayload threadTS
                    (eventsBlock (correlatedEvents podName restartTime items))) :: l1
         ++ Post (threadPayload threadTS (logsBlock shortLogs)) :: l2
         ++ Post (threadPayload threadTS (analysisBlock shortAnalysis)) :: l3)) →
  P (analyzePod w podName namespace restartTime).
Proof.
  intros Hlogs Hevents Hanalysis Hparent Hreplies. unfold analyzePod.
  task_bind (eq_refl : (perform (GetLogs namespace podName LOG_LINES)).1 = Some tt).
  destruct (getLogs w namespace podName LOG_LINES) as [err|logs] eqn:Hl;
    [by apply Hlogs|].
  task_bind (eq_refl : (perform (ListEvents namespace)).1 = Some tt).
  destruct (listEvents w namespace) as [err|items] eqn:He;
    [by eapply Hevents|].
  destruct (callOllama_returns w logs (correlatedEvents podName restartTime items))
    as (analysis & err & Hcall).
  task_bind Hcall. rewrite callOllama_trace.
  destruct err as [err|]; [by eapply Hanalysis|].
  destruct (postToSlack_shape w (summaryPayload w podName namespace restartTime))
    as (threadTS & l0 & Hpost & Hl0).
  fold (sendMainSlackMessage w podName namespace restartTime) in Hpost.
  task_bind (f_equal fst Hpost). rewrite Hpost. cbn [snd].
  destruct (String.eqb threadTS "") eqn:Hts; cbn [negb].
  - apply String.eqb_eq in Hts. subst threadTS.
    simpl. rewrite app_nil_r. by eapply (Hparent logs items analysis l0).
  - apply String.eqb_neq in Hts.
    destruct (truncate_total logs 1000) as [shortLogs HshortLogs]; [lia|].
    destruct (truncate_total analysis 3000) as [shortAnalysis HshortAnalysis]; [lia|].
    rewrite HshortLogs, HshortAnalysis.
    destruct (sendSlackThread_shape w threadTS
                (eventsBlock (correlatedEvents podName restartTime items)))
      as (l1 & H1 & Hl1).
    destruct (sendSlackThread_shape w threadTS (logsBlock shortLogs))
      as (l2 & H2 & Hl2).
    destruct (sendSlackThread_shape w threadTS (analysisBlock shortAnalysis))
      as (l3 & H3 & Hl3).
    unfold eventsBlock, logsBlock, analysisBlock in H1, H2, H3.
    task_bind (f_equal fst H1). rewrite H1. cbn [snd].
    task_bind (eq_refl : (orPanic (Some shortLogs)).1 = Some shortLogs).
    task_bind (f_equal fst H2). rewrite H2. cbn [snd].
    task_bind (eq_refl : (orPanic (Some shortAnalysis)).1 = Some shortAnalysis).
    rewrite H3. cbn [fst snd].
    by eapply (Hreplies logs items analysis threadTS shortLogs shortAnalysis l0 l1 l2 l3).
Qed.

End TaskMore.

Lemma posts_logged_app tr rest : Forall logged tr → posts (tr ++ rest) = posts rest.
Proof. intros H. by rewrite posts_app, posts_logged. Qed.

Lemma posts_Post payload tr : posts (Post payload :: tr) = payload :: posts tr.
Proof. reflexivity. Qed.

(** X9: a task never panics: whatever the collaborators answer it runs
    to its end, the two cuts at 1000 and 3000 bytes included. *)
Theorem analyzePod_never_panics (w : World) (podName namespace : string)
    (restartTime : Time) :
  (analyzePod w podName namespace restartTime).1 = Some tt.
Proof. apply analyzePod_cases; intros; reflexivity. Qed.

(** X10: a task sends to Slack nothing, the summary alone, or the
    summary and three replies, never anything in between and never
    more; and every message goes to the configured channel. *)
Theorem analyzePod_posts_all_or_nothing (w : World) (podName namespace : string)
    (restartTime : Time) :
  (length (posts (analyzePod w podName namespace restartTime).2) = 0%nat
   ∨ length (posts (analyzePod w podName namespace restartTime).2) = 1%nat
   ∨ length (posts (analyzePod w podName namespace restartTime).2) = 4%nat)
  ∧ Forall (fun payload => channel payload = SLACK_CHANNEL)
      (posts (analyzePod w podName namespace restartTime).2).
Proof.
  apply analyzePod_cases; intros; cbn [snd].
  - split; [by left|constructor].
  - split; [by left|constructor].
  - split; [by left|constructor].
  - change (posts _) with
      (summaryPayload w podName namespace restartTime :: posts l0).
    rewrite (posts_logged l0) by done.
    split; [right; by left|repeat constructor].
  - change (posts _) with
      (summaryPayload w podName namespace restartTime
       :: posts (l0 ++ Post (threadPayload threadTS
                    (eventsBlock (correlatedEvents podName restartTime items))) :: l1
         ++ Post (threadPayload threadTS (logsBlock shortLogs)) :: l2
         ++ Post (threadPayload threadTS (analysisBlock shortAnalysis)) :: l3)).
    rewrite posts_logged_app, posts_Post, posts_logged_app, posts_Post,
      posts_logged_app, posts_Post, (posts_logged l3) by done.
    split; [right; by right|repeat constructor].
Qed.

(** X11: nothing is sent to Slack unless the logs were fetched, the
    events were listed and the inference service gave an analysis
    without error. *)
Theorem posts_require_evidence (w : World) (podName namespace : string)
    (restartTime : Time) :
  posts (analyzePod w podName namespace restartTime).2 ≠ [] →
  ∃ logs items analysis,
    getLogs w namespace podName LOG_LINES = inr logs
    ∧ listEvents w namespace = inr items
    ∧ (callOllama w logs (correlatedEvents podName restartTime items)).1
      = Some (analysis, None).
Proof.
  apply analyzePod_cases; intros;
    try match goal with
        | H : posts _ ≠ [] |- _ => exfalso; apply H; reflexivity
        end; eauto 10.
Qed.

Lemma posts_require_evidence_witness :
  ∃ logs items analysis,
    getLogs (world (Body answer_with_text) (Body slack_refused)) "ns" "app-1" LOG_LINES
    = inr logs
    ∧ listEvents (world (Body answer_with_text) (Body slack_refused)) "ns" = inr items
    ∧ (callOllama (world (Body answer_with_text) (Body slack_refused)) logs
         (correlatedEvents "app-1" 100 items)).1
      = Some (analysis, None).
Proof.
  apply (posts_require_evidence
           (world (Body answer_with_text) (Body slack_refused)) "app-1" "ns" 100).
  vm_compute. discriminate.
Defined.

(** X12: the inference service is asked only after the logs and the
    events were both retrieved, and the request is the one built from
    those logs and from the events correlated with the restart. *)
Theorem inference_request_gated (w : World) (podName namespace : string)
    (restartTime : Time) (req : OllamaRequest) :
  Generate req ∈ (analyzePod w podName namespace restartTime).2 →
  ∃ logs items,
    getLogs w namespace podName LOG_LINES = inr logs
    ∧ listEvents w namespace = inr items
    ∧ req = ollamaRequest logs (correlatedEvents podName restartTime items).
Proof.
  assert (∀ l, Forall logged l → Generate req ∈ l → False) as Hlog.
  { intros l Hl Hin. rewrite Forall_forall in Hl. exact (Hl _ Hin). }
  apply analyzePod_cases; intros; cbn [snd app] in *;
    repeat match goal with
           | H : _ ∈ _ ++ _ |- _ => apply elem_of_app in H as [H|H]
           | H : _ ∈ _ :: _ |- _ => apply elem_of_cons in H as [H|H]
           | H : _ ∈ [] |- _ => by apply elem_of_nil in H
           | H : Generate _ = _ |- _ => injection H as ->
           | H : Generate _ = _ |- _ => discriminate H
           end;
    try (exfalso; eauto; fail); eauto.
Qed.

Lemma inference_request_gated_witness :
  ∃ logs items,
    getLogs (world (Body answer_garbled) (Body slack_accepted)) "ns" "app-1" LOG_LINES
    = inr logs
    ∧ listEvents (world (Body answer_garbled) (Body slack_accepted)) "ns" = inr items
    ∧ ollamaRequest "fatal error: out of memory" [oomKilled]
      = ollamaRequest logs (correlatedEvents "app-1" 100 items).
Proof.
  apply (inference_request_gated
           (world (Body answer_garbled) (Body slack_accepted)) "app-1" "ns" 100).
  vm_compute. repeat constructor.
Defined.

(** X13: a task only calls the cluster, the inference service and
    Slack and writes log lines: it never lists pods, never sleeps,
    never writes the map of notified restarts and never starts a
    task. *)
Theorem task_effects_confined (w : World) (podName namespace : string)
    (restartTime : Time) :
  Forall taskEffect (analyzePod w podName namespace restartTime).2.
Proof.
  assert (∀ l, Forall logged l → Forall taskEffect l) as Hlog.
  { intros l Hl. eapply Forall_impl; [exact Hl|]. by intros []. }
  apply analyzePod_cases; intros; cbn [snd];
    repeat first [ by apply Hlog
                 | apply Forall_nil_2
                 | apply Forall_cons_2; [exact I|]
                 | apply Forall_app_2 ].
Qed.

(** X14: an incident that is given up before anything is sent leaves
    a line in the log as the last thing the task does. *)
Theorem abandoned_incident_is_logged (w : World) (podName namespace : string)
    (restartTime : Time) :
  posts (analyzePod w podName namespace restartTime).2 = [] →
  ∃ msg, last (analyzePod w podName namespace restartTime).2 = Some (Log msg).
Proof.
  apply analyzePod_cases; intros;
    try match goal with
        | H : posts _ = [] |- _ => cbn [snd app] in H; discriminate H
        end; eexists; reflexivity.
Qed.

Lemma abandoned_incident_is_logged_witness :
  ∃ msg, last (analyzePod (world (Body answer_garbled) (Body slack_accepted))
                 "app-1" "ns" 100).2 = Some (Log msg).
Proof.
  apply (abandoned_incident_is_logged
           (world (Body answer_garbled) (Body slack_accepted)) "app-1" "ns" 100).
  vm_compute. reflexivity.
Defined.

(** ** Slack and the inference service *)

(** X15: a reference that is not empty never comes from the program
    itself: [postToSlack] returns one only when the map the decoder
    left for Slack's answer, with or without an error of decoding, holds
    [ok] as the boolean true and that very reference as the string
    [ts]. *)
Theorem postToSlack_reference_origin (w : World) (payload : SlackPayload)
    (ref : string) :
  (postToSlack w payload).1 = Some ref →
  ref ≠ "" →
  ∃ parsed, slackAnswer w (slack w payload) = Some parsed
            ∧ parsed !! "ok" = Some (Bool true)
            ∧ parsed !! "ts" = Some (Str ref).
Proof.
  unfold postToSlack, slackAnswer.
  destruct (slack w payload) as [err|err body|body]; simpl.
  - intros [= <-] Hne. by destruct Hne.
  - set (parsed := (unmarshal w body).2).
    destruct (parsed !! "ok") as [[|[|]| | | |]|] eqn:Hok; simpl;
      try (intros [= <-] Hne; by destruct Hne).
    destruct (parsed !! "ts") as [[| | |ts| |]|] eqn:Hts; simpl;
      try (intros [= <-] Hne; by destruct Hne).
    intros [= <-] _. by exists parsed.
  - set (parsed := (unmarshal w body).2).
    destruct (parsed !! "ok") as [[|[|]| | | |]|] eqn:Hok; simpl;
      try (intros [= <-] Hne; by destruct Hne).
    destruct (parsed !! "ts") as [[| | |ts| |]|] eqn:Hts; simpl;
      try (intros [= <-] Hne; by destruct Hne).
    intros [= <-] _. by exists parsed.
Qed.

Lemma postToSlack_reference_origin_witness :
  ∃ parsed,
    slackAnswer (world (Body answer_with_text) (Body slack_accepted))
      (slack (world (Body answer_with_text) (Body slack_accepted))
                   (summaryPayload (world (Body answer_with_text) (Body slack_accepted))
                      "app-1" "ns" 100)) = Some parsed
    ∧ parsed !! "ok" = Some (Bool true)
    ∧ parsed !! "ts" = Some (Str "1700000000.000100").
Proof.
  apply (postToSlack_reference_origin
           (world (Body answer_with_text) (Body slack_accepted))
           (summaryPayload (world (Body answer_with_text) (Body slack_accepted))
              "app-1" "ns" 100)
           "1700000000.000100").
  - vm_compute. reflexivity.
  - discriminate.
Defined.

(** X16: a publish that fails in transport, or for whose answer the
    map the decoder left does not hold [ok] as the boolean true,
    returns the empty reference and writes one line to the log after
    the post. *)
Theorem postToSlack_logs_failure (w : World) (payload : SlackPayload) :
  (∀ parsed, slackAnswer w (slack w payload) = Some parsed →
             parsed !! "ok" ≠ Some (Bool true)) →
  ∃ msg, postToSlack w payload = (Some "", [Post payload; Log msg]).
Proof.
  unfold postToSlack, slackAnswer.
  destruct (slack w payload) as [err|err body|body]; simpl; intros Hno.
  - eexists. reflexivity.
  - specialize (Hno _ eq_refl).
    destruct (_ !! "ok") as [[|[|]| | | |]|]; simpl;
      try (eexists; reflexivity). by destruct Hno.
  - specialize (Hno _ eq_refl).
    destruct (_ !! "ok") as [[|[|]| | | |]|]; simpl;
      try (eexists; reflexivity). by destruct Hno.
Qed.

Lemma postToSlack_logs_failure_witness :
  ∃ msg,
    postToSlack (world (Body answer_with_text) (Body slack_refused))
      (summaryPayload (world (Body answer_with_text) (Body slack_refused))
         "app-1" "ns" 100)
    = (Some "",
       [Post (summaryPayload (world (Body answer_with_text) (Body slack_refused))
                "app-1" "ns" 100);
        Log msg]).
Proof.
  apply (postToSlack_logs_failure
           (world (Body answer_with_text) (Body slack_refused))
           (summaryPayload (world (Body answer_with_text) (Body slack_refused))
              "app-1" "ns" 100)).
  intros parsed H. vm_compute in H. injection H as <-. vm_compute. discriminate.
Defined.

(** An acknowledged publish without a usable reference. *)
Lemma postToSlack_unreferenced (w : World) (payload : SlackPayload)
    (parsed : gmap string JSON) :
  slackAnswer w (slack w payload) = Some parsed →
  parsed !! "ok" = Some (Bool true) →
  (∀ ts, ts ≠ "" → parsed !! "ts" ≠ Some (Str ts)) →
  postToSlack w payload = (Some "", [Post payload]).
Proof.
  unfold postToSlack, slackAnswer.
  destruct (slack w payload) as [err|err body|body]; [done|..];
    intros [= <-] Hok Hts; simpl; rewrite Hok; simpl;
    (destruct (_ !! "ts") as [[| | |ts| |]|] eqn:Hts'; try reflexivity;
     destruct (decide (ts = "")) as [->|Hne]; [reflexivity|];
     by destruct (Hts ts Hne)).
Qed.

(** X17: when the map the decoder left for Slack's answer to the
    summary holds [ok] as true but no string [ts] that is not empty, the
    task stops after the summary and logs nothing: the three replies
    are dropped without a trace. *)
Theorem acknowledged_without_ts_is_silent (w : World) (podName namespace : string)
    (restartTime : Time) (logs : string) (items : list Event) (analysis : string)
    (parsed : gmap string JSON) :
  getLogs w namespace podName LOG_LINES = inr logs →
  listEvents w namespace = inr items →
  (callOllama w logs (correlatedEvents podName restartTime items)).1
  = Some (analysis, None) →
  slackAnswer w (slack w (summaryPayload w podName namespace restartTime)) = Some parsed →
  parsed !! "ok" = Some (Bool true) →
  (∀ ts, ts ≠ "" → parsed !! "ts" ≠ Some (Str ts)) →
  (analyzePod w podName namespace restartTime).2
  = [GetLogs namespace podName LOG_LINES; ListEvents namespace;
     Generate (ollamaRequest logs (correlatedEvents podName restartTime items));
     Post (summaryPayload w podName namespace restartTime)].
Proof.
  intros Hlogs Hitems Hcall Hanswer Hok Hts.
  pose proof (postToSlack_unreferenced w _ parsed Hanswer Hok Hts) as Hpost.
  fold (sendMainSlackMessage w podName namespace restartTime) in Hpost.
  apply analyzePod_cases; intros; cbn [snd]; try congruence.
  assert (logs0 = logs) as -> by congruence.
    assert (items0 = items) as -> by congruence.
    assert (l0 = []) as -> by congruence. reflexivity.
Qed.

Lemma acknowledged_without_ts_is_silent_witness :
  (analyzePod (world (Body answer_with_text) (Body slack_acknowledged))
     "app-1" "ns" 100).2
  = [GetLogs "ns" "app-1" LOG_LINES; ListEvents "ns";
     Generate (ollamaRequest "fatal error: out of memory"
                 (correlatedEvents "app-1" 100 [oomKilled]));
     Post (summaryPayload (world (Body answer_with_text) (Body slack_acknowledged))
             "app-1" "ns" 100)].
Proof.
  eapply (acknowledged_without_ts_is_silent
            (world (Body answer_with_text) (Body slack_acknowledged))
            "app-1" "ns" 100 "fatal error: out of memory" [oomKilled]
            "Check the image tag.").
  - reflexivity.
  - reflexivity.
  - vm_compute. reflexivity.
  - vm_compute. reflexivity.
  - vm_compute. reflexivity.
  - intros ts _ H. vm_compute in H. discriminate.
Defined.

(** X18: the requester returns an error exactly when the transport
    failed, the body could not be read, or decoding the body gave an
    error, and it is that failure's error; the text it returns with it
    is empty. *)
Theorem callOllama_error_iff (w : World) (logs : string) (events : list Event)
    (text : string) (err : error) :
  (callOllama w logs events).1 = Some (text, Some err)
  ↔ text = ""
    ∧ (ollama w (ollamaRequest logs events) = TransportError err
       ∨ (∃ partial, ollama w (ollamaRequest logs events) = ReadError err partial)
       ∨ (∃ body, ollama w (ollamaRequest logs events) = Body body
                  ∧ (unmarshal w body).1 = Some err)).
Proof.
  unfold callOllama.
  destruct (ollama w (ollamaRequest logs events)) as [e|e partial|body]; simpl.
  - split.
    + intros [= <- <-]. split; [done|]. by left.
    + intros [-> [[= ->]|[[? [=]]|[? [[=] _]]]]]. done.
  - split.
    + intros [= <- <-]. split; [done|]. right; left. by exists partial.
    + intros [-> [[=]|[[? [= -> _]]|[? [[=] _]]]]]. done.
  - destruct (unmarshal w body) as [[e|] parsed] eqn:Hu; simpl.
    + split.
      * intros [= <- <-]. split; [done|]. right; right. exists body. by rewrite Hu.
      * intros [-> [[=]|[[? [=]]|[? [[= <-] Hb]]]]]. rewrite Hu in Hb.
        simpl in Hb. by simplify_eq.
    + split.
      * destruct (parsed !! "response") as [[| | |response| |]|]; intros [=].
      * intros [-> [[=]|[[? [=]]|[? [[= <-] Hb]]]]]. rewrite Hu in Hb. discriminate.
Qed.

(** ** Splitting and joining lines *)

Section SplitJoin.

Implicit Types (s : string) (sep : ascii) (lines : list string).

Lemma Split_nonempty s sep : Split s sep ≠ [].
Proof.
  destruct s as [|c s]; [done|]. simpl.
  destruct (Ascii.eqb c sep); [done|]. by destruct (Split s sep).
Qed.

Lemma Join_cons line lines seps :
  lines ≠ [] → Join (line :: lines) seps = line +:+ seps +:+ Join lines seps.
Proof. by destruct lines. Qed.

(** Joining the pieces of a split with the separator gives the string
    back. *)
Lemma Join_Split s sep : Join (Split s sep) (String sep "") = s.
Proof.
  induction s as [|c s IH]; [done|]. simpl.
  destruct (Ascii.eqb c sep) eqn:Hc.
  - apply Ascii.eqb_eq in Hc as ->.
    rewrite Join_cons by apply Split_nonempty. by rewrite IH.
  - pose proof (Split_nonempty s sep) as Hne.
    destruct (Split s sep) as [|piece pieces]; [done|].
    destruct pieces as [|piece' pieces].
    + simpl in *. by rewrite IH.
    + rewrite Join_cons in IH by done. rewrite Join_cons by done.
      by rewrite app_String, IH.
Qed.

Lemma has_byte_app sep s1 s2 :
  has_byte sep (s1 +:+ s2) = has_byte sep s1 || has_byte sep s2.
Proof.
  induction s1 as [|c s1 IH]; [done|].
  rewrite app_String. simpl. by rewrite IH, orb_assoc.
Qed.

Lemma Split_no_sep s sep : has_byte sep s = false → Split s sep = [s].
Proof.
  induction s as [|c s IH]; [done|]. simpl.
  intros [Hc Hs]%orb_false_iff. rewrite Hc, IH by done. done.
Qed.

Lemma Split_app_sep s rest sep :
  has_byte sep s = false →
  Split (s +:+ String sep rest) sep = s :: Split rest sep.
Proof.
  induction s as [|c s IH]; simpl.
  - intros _. rewrite ?app_empty_l. simpl. by rewrite Ascii.eqb_refl.
  - intros [Hc Hs]%orb_false_iff. rewrite ?app_String. simpl.
    by rewrite Hc, IH.
Qed.

(** Splitting what was joined gives the lines back, when there is at
    least one and none holds the separator. *)
Lemma Split_Join lines sep :
  lines ≠ [] →
  Forall (fun line => has_byte sep line = false) lines →
  Split (Join lines (String sep "")) sep = lines.
Proof.
  intros Hne Hall. induction Hall as [|line lines Hline Hall IH]; [done|].
  destruct lines as [|line' lines].
  - simpl. by apply Split_no_sep.
  - rewrite Join_cons by done. rewrite app_String, app_empty_l.
    rewrite Split_app_sep by done. by rewrite IH.
Qed.

End SplitJoin.

(** ** Formatter *)

Lemma fenced_plain_lines (lines : list string) :
  Forall plain lines → fenced false lines = map TrimSpace lines.
Proof.
  induction 1 as [|line lines Hline _ IH]; [done|].
  rewrite fenced_plain by done. simpl. by rewrite IH.
Qed.

(** X19: a text none of whose lines is a command gets no fence: the
    formatter returns its lines trimmed and joined again, nothing
    added. *)
Theorem formatCodeBlocks_plain_text (text : string) :
  Forall plain (Split text newline) →
  formatCodeBlocks text = Join (map TrimSpace (Split text newline)) nl.
Proof.
  intros H. unfold formatCodeBlocks.
  by rewrite formatLines_fenced, fenced_plain_lines.
Qed.

Lemma formatCodeBlocks_plain_text_witness :
  formatCodeBlocks ("  The image is missing. " +:+ nl +:+ "  Fix the tag.")
  = Join (map TrimSpace
            (Split ("  The image is missing. " +:+ nl +:+ "  Fix the tag.") newline)) nl.
Proof.
  apply (formatCodeBlocks_plain_text
           ("  The image is missing. " +:+ nl +:+ "  Fix the tag.")).
  vm_compute. repeat constructor.
Defined.

(** X20: a text whose lines are no commands and carry no white space
    at either end comes back from the formatter as it went in. *)
Theorem formatCodeBlocks_identity (text : string) :
  Forall (fun line => plain line ∧ TrimSpace line = line) (Split text newline) →
  formatCodeBlocks text = text.
Proof.
  intros H. unfold formatCodeBlocks.
  rewrite formatLines_fenced, fenced_plain_lines.
  - assert (map TrimSpace (Split text newline) = Split text newline) as ->.
    { induction H as [|line lines [_ Hline] _ IH]; [done|]. simpl. by rewrite Hline, IH. }
    apply Join_Split.
  - eapply Forall_impl; [exact H|]. by intros line [? _].
Qed.

Lemma formatCodeBlocks_identity_witness :
  formatCodeBlocks ("The image is missing." +:+ nl +:+ nl +:+ "Fix the tag.")
  = "The image is missing." +:+ nl +:+ nl +:+ "Fix the tag.".
Proof.
  apply (formatCodeBlocks_identity
           ("The image is missing." +:+ nl +:+ nl +:+ "Fix the tag.")).
  vm_compute. repeat constructor.
Defined.

Lemma fenced_balance (lines : list string) (b : bool) :
  Forall (fun line => TrimSpace line ≠ "```bash" ∧ TrimSpace line ≠ "```") lines →
  (length (filter (fun l => l = "```bash") (fenced b lines)) + (if b then 1 else 0))%nat
  = length (filter (fun l => l = "```") (fenced b lines)).
Proof.
  intros Hall. revert b.
  induction Hall as [|line lines [Ho Hc] _ IH]; intros b.
  - by destruct b.
  - cbn [fenced]. destruct (isCommand (TrimSpace line)), b; simpl app.
    + rewrite !filter_cons_False by done. apply IH.
    + rewrite (filter_cons_True (fun l => l = "```bash")) by done.
      rewrite (filter_cons_False (fun l => l = "```")) by done.
      rewrite !filter_cons_False by done. simpl. rewrite <- (IH true). lia.
    + rewrite (filter_cons_False (fun l => l = "```bash")) by done.
      rewrite (filter_cons_True (fun l => l = "```")) by done.
      rewrite !filter_cons_False by done. simpl. rewrite <- (IH false). lia.
    + rewrite !filter_cons_False by done. apply IH.
Qed.

(** X21: the fences the formatter adds are balanced: when no input
    line is itself a fence once trimmed, the output holds as many
    opening fences as closing ones. *)
Theorem fences_balanced (lines : list string) :
  Forall (fun line => TrimSpace line ≠ "```bash" ∧ TrimSpace line ≠ "```") lines →
  length (filter (fun l => l = "```bash") (formatLines lines))
  = length (filter (fun l => l = "```") (formatLines lines)).
Proof.
  intros H. rewrite formatLines_fenced, <- (fenced_balance lines false H). lia.
Qed.

Lemma fences_balanced_witness :
  length (filter (fun l => l = "```bash")
            (formatLines ["Try:"; "kubectl get pods"; "then"; "bash fix.sh"]))
  = length (filter (fun l => l = "```")
              (formatLines ["Try:"; "kubectl get pods"; "then"; "bash fix.sh"])).
Proof.
  apply (fences_balanced ["Try:"; "kubectl get pods"; "then"; "bash fix.sh"]).
  repeat (constructor; [split; vm_compute; discriminate|]). constructor.
Defined.

(** X22: the event renderer writes one line per event, in order, of
    the form reason, colon, message: splitting its output at the line
    breaks gives those lines back, provided there is an event and no
    reason or message holds a line break. *)
Theorem formatEvents_lines (events : list Event) :
  events ≠ [] →
  Forall (fun e => has_byte newline (Reason e) = false
                   ∧ has_byte newline (Message e) = false) events →
  Split (formatEvents events) newline
  = map (fun e => Reason e +:+ ": " +:+ Message e) events.
Proof.
  intros Hne Hall. unfold formatEvents. apply Split_Join.
  - by destruct events.
  - apply Forall_map. eapply Forall_impl; [exact Hall|].
    intros e [Hr Hm]. simpl. by rewrite !has_byte_app, Hr, Hm.
Qed.

Lemma formatEvents_lines_witness :
  Split (formatEvents [oomKilled; oomKilled]) newline
  = map (fun e => Reason e +:+ ": " +:+ Message e) [oomKilled; oomKilled].
Proof.
  apply (formatEvents_lines [oomKilled; oomKilled]).
  - discriminate.
  - repeat constructor.
Defined.

(** X23: for a limit that is not negative the truncator returns a
    string of at most the limit plus the 15 bytes of the suffix, and
    never more than 15 bytes longer than its input. *)
Theorem truncate_length_bound (s : string) (n : Z) :
  0 <= n →
  ∃ r, truncate s n = Some r
       ∧ len r <= n + len "... (truncated)"
       ∧ len r <= len s + len "... (truncated)".
Proof.
  intros H0. destruct (Z.le_gt_cases (len s) n) as [Hle|Hgt].
  - exists s. rewrite truncate_within by done.
    change (len "... (truncated)") with 15. unfold len in *. repeat split; lia.
  - rewrite truncate_beyond by lia. eexists. split; [done|].
    destruct (substring_head s (Z.to_nat n)) as (tail & Hs & Hl).
    { unfold len in Hgt. lia. }
    rewrite len_app. unfold len at 1 3. rewrite Hl. unfold len in *. lia.
Qed.

Lemma truncate_length_bound_witness :
  ∃ r, truncate "abcdefgh" 3 = Some r
       ∧ len r <= 3 + len "... (truncated)"
       ∧ len r <= len "abcdefgh" + len "... (truncated)".
Proof. apply (truncate_length_bound "abcdefgh" 3). lia. Defined.

(** ** The loop as a whole *)

Section LoopMore.

Implicit Types (m : gmap string Time) (tr : list Effect).

Lemma forEach_app {A : Type}
    (body : A → gmap string Time → list Effect * gmap string Time)
    (items1 items2 : list A) m :
  forEach body (items1 ++ items2) m
  = ((forEach body items1 m).1 ++ (forEach body items2 (forEach body items1 m).2).1,
     (forEach body items2 (forEach body items1 m).2).2).
Proof.
  revert m. induction items1 as [|x items1 IH]; intros m.
  - simpl. by destruct (forEach body items2 m).
  - simpl. destruct (body x m) as [tr1 m1]. rewrite IH.
    destruct (forEach body items1 m1) as [tr2 m2]. simpl.
    by rewrite app_assoc.
Qed.

Lemma listings_app tr1 tr2 : listings (tr1 ++ tr2) = (listings tr1 + listings tr2)%nat.
Proof. induction tr1 as [|[] tr1 IH]; simpl; lia. Qed.

Lemma sleeps_app tr1 tr2 : sleeps (tr1 ++ tr2) = (sleeps tr1 + sleeps tr2)%nat.
Proof. induction tr1 as [|[] tr1 IH]; simpl; lia. Qed.

Lemma detection_counts tr : Forall detection tr → listings tr = 0%nat ∧ sleeps tr = 0%nat.
Proof. induction 1 as [|[] tr He _ [IH1 IH2]]; simpl in *; done. Qed.

End LoopMore.

(** X24: every turn of the loop lists the pods once, whatever failed
    before it, and sleeps once if and only if its listing succeeded: a
    run of the loop has as many listings as turns and as many sleeps as
    listings that succeeded. *)
Theorem one_listing_per_turn (polls : list (error + list Pod))
    (m : gmap string Time) :
  listings (mainLoop polls m).1 = length polls
  ∧ sleeps (mainLoop polls m).1 = length (succeeded polls).
Proof.
  revert m. induction polls as [|listed polls IH]; intros m; [done|].
  unfold mainLoop in *. rewrite forEach_cons, listings_app, sleeps_app.
  destruct (IH (pollOnce listed m).2) as [-> ->].
  destruct listed as [err|pods]; simpl; [done|].
  destruct (detection_counts _ (checkPods_detection pods m)) as [Hl Hs].
  destruct (forEach checkPod pods m) as [tr m']. simpl in *.
  rewrite listings_app, sleeps_app, Hl, Hs. simpl. done.
Qed.

(** X25: the start time of every listed pod that has a restarted
    container is covered by a task: the run from the start of the
    process holds a task for the pod's key that carries that start time
    or a later one.  (A further restart that leaves the start time of
    the pod as it was starts no task of its own.) *)
Theorem listed_start_time_is_covered (polls : list (error + list Pod)) (pods : list Pod)
    (pod : Pod) (t : Time) :
  inr pods ∈ polls → pod ∈ pods → StartTime pod = Some t → restarted pod →
  ∃ name ns (u : Time),
    dedupKey ns name = dedupKey (Namespace pod) (Name pod)
    ∧ t <= u
    ∧ Go name ns u ∈ (run polls).1.
Proof.
  intros Hpolls Hpod Hstart Hr.
  apply list_elem_of_split in Hpolls as (before & after & ->).
  assert (∃ u : Time, (run (before ++ inr pods :: after)).2
                      !! dedupKey (Namespace pod) (Name pod) = Some u ∧ t <= u)
    as (u & Hu & Hle).
  { unfold run, mainLoop. rewrite forEach_app. cbn [snd].
    set (m0 := (forEach pollOnce before ∅).2).
    rewrite <- (app_nil_l after), app_comm_cons, forEach_app. cbn [snd].
    assert (∃ u0 : Time, (forEach pollOnce [inr pods] m0).2
                         !! dedupKey (Namespace pod) (Name pod) = Some u0 ∧ t <= u0)
      as (u0 & Hu0 & Hle0).
    { destruct (forEach_checkPod_covers pods m0 pod t Hpod Hstart Hr) as (u0 & Hu0 & ?).
      exists u0. split; [|done]. simpl.
      destruct (forEach checkPod pods m0). done. }
    destruct (seg_mono _ _ _
                (Segment_mainLoop after (forEach pollOnce [inr pods] m0).2) _ _ Hu0)
      as (u & Hu & Hle).
    exists u. split; [exact Hu|lia]. }
  destruct (accounted_mainLoop _ ∅ _ _ Hu)
    as [Hempty|(name & ns & Hkey & Hgo)]; [by rewrite lookup_empty in Hempty|].
  by exists name, ns, u.
Qed.

Lemma listed_start_time_is_covered_witness :
  ∃ name ns (u : Time),
    dedupKey ns name = dedupKey (Namespace (app1 100 1)) (Name (app1 100 1))
    ∧ 100 <= u
    ∧ Go name ns u ∈ (run three_polls).1.
Proof.
  apply (listed_start_time_is_covered three_polls [app1 100 1] (app1 100 1) 100).
  - repeat constructor.
  - repeat constructor.
  - reflexivity.
  - repeat constructor.
Defined.
